(** * BearWithMe: the pronunciation practice loop

    A shallow embedding of the decision logic of [main.py] (per-phoneme
    drill, then whole word) and [main2.py] (flagged retry): the phoneme
    notation translator [azure_phoneme_to_text], the threshold partition of
    a round's phoneme scores, and the repeat-until-correct loop that
    sequences assessment and spoken feedback.

    Modelling choices.
    - A Python [str] is a [string]; a character is read as the code point
      of the same number, so the strings covered are those over code points
      below 256.  [str.isdigit] and [str.lower] are written out for that
      range as Python defines them.
    - A Python [dict] is an association list in insertion order; assignment
      to an existing key overwrites the value in place.
    - A phoneme accuracy score is a Python number: a rational value (an
      [int], or a finite [float]) or one of the special values of [float],
      the infinities and NaN; the threshold is an integer ([Z]).  Python
      compares numbers by value, and every comparison with NaN is false.
    - The speech recogniser, the synthesiser, the clock and the console are
      collaborators: a run of the loop is a function of the list of results
      the recogniser delivers, and it yields the trace of the calls made to
      the collaborators. *)

From Stdlib Require Import List String Ascii Bool NArith ZArith QArith Lia.
Import ListNotations.

Local Open Scope string_scope.

(** The expected type of a pair and of a list is passed down to its
    components, so that a rational written in a score mapping is read as
    the number of that value. *)
Arguments pair {A B} & a b.
Arguments cons {A} & a l.
Arguments Some {A} & a.

(** ** Python primitives *)

Module Py.

(** [c.isdigit()]: the decimal digits, and the superscripts two, three
    and one (code points 178, 179 and 185), whose Unicode numeric type is
    digit. *)
Definition isdigit (c : ascii) : bool :=
  let n := N_of_ascii c in
  (((48 <=? n) && (n <=? 57)) || (n =? 178) || (n =? 179) || (n =? 185))%N.

(** The case mapping of [str.lower] on one character: the letters A to Z
    and the upper-case letters of code points 192 to 222 (the
    multiplication sign, 215, is not a letter) move up by 32. *)
Definition lower_char (c : ascii) : ascii :=
  let n := N_of_ascii c in
  if (((65 <=? n) && (n <=? 90))
      || ((192 <=? n) && (n <=? 222) && negb (n =? 215)))%N
  then ascii_of_N (n + 32)
  else c.

(** [s.lower()], on the code points a [string] holds: below 256 the
    case mapping of Python goes character by character (the rule for a
    capital sigma at the end of a word, and the mappings to more than one
    character, concern code points beyond that range). *)
Fixpoint lower (s : string) : string :=
  match s with
  | EmptyString => EmptyString
  | String c r => String (lower_char c) (lower r)
  end.

(** [''.join([c for c in s if p(c)])] *)
Fixpoint join_if (p : ascii -> bool) (s : string) : string :=
  match s with
  | EmptyString => EmptyString
  | String c r => if p c then String c (join_if p r) else join_if p r
  end.

(** [all(p(c) for c in s)] *)
Fixpoint all_chars (p : ascii -> bool) (s : string) : bool :=
  match s with
  | EmptyString => true
  | String c r => p c && all_chars p r
  end.

(** [s.isascii()]: every code point is below 128. *)
Definition isascii (s : string) : bool :=
  all_chars (fun c => (N_of_ascii c <? 128)%N) s.

(** [template.format(arg)] for a template with one [{}] field. *)
Fixpoint format (template arg : string) : string :=
  match template with
  | EmptyString => EmptyString
  | String "{" (String "}" r) => arg ++ r
  | String c r => String c (format r arg)
  end.

(** *** Dictionaries *)

Definition dict (V : Type) : Type := list (string * V).

(** [d.get(k)] as an option; [None] when the key is absent. *)
Fixpoint dict_get {V} (d : dict V) (k : string) : option V :=
  match d with
  | [] => None
  | (k', v) :: r => if String.eqb k k' then Some v else dict_get r k
  end.

(** [k in d] *)
Definition dict_in {V} (k : string) (d : dict V) : bool :=
  match dict_get d k with Some _ => true | None => false end.

(** [d.get(k, default)] *)
Definition dict_get_default {V} (d : dict V) (k : string) (default : V) : V :=
  match dict_get d k with Some v => v | None => default end.

(** [d[k] = v]: an existing key keeps its place, a new key goes last. *)
Fixpoint dict_set {V} (d : dict V) (k : string) (v : V) : dict V :=
  match d with
  | [] => [(k, v)]
  | (k', v') :: r =>
      if String.eqb k k' then (k', v) :: r else (k', v') :: dict_set r k v
  end.

Definition keys {V} (d : dict V) : list string := map fst d.
Definition values {V} (d : dict V) : list V := map snd d.

(** A dictionary holds each key once. *)
Definition dict_wf {V} (d : dict V) : Prop := NoDup (keys d).

(** A number: a rational value, or a special value of [float]. *)
Inductive number : Type :=
| Num (q : Q)
| PosInf
| NegInf
| NaN.

Coercion Num : Q >-> number.

(** [x < y] and [x >= y] on numbers: by value, and false whenever one
    side is NaN. *)
Definition num_lt (x y : number) : bool :=
  match x, y with
  | Num a, Num b => (Qnum a * QDen b <? Qnum b * QDen a)%Z
  | Num _, PosInf => true
  | NegInf, Num _ => true
  | NegInf, PosInf => true
  | _, _ => false
  end.

Definition num_ge (x y : number) : bool :=
  match x, y with
  | Num a, Num b => (Qnum b * QDen a <=? Qnum a * QDen b)%Z
  | Num _, NegInf => true
  | PosInf, Num _ => true
  | PosInf, PosInf => true
  | PosInf, NegInf => true
  | NegInf, NegInf => true
  | _, _ => false
  end.

Definition is_nan (x : number) : bool :=
  match x with NaN => true | _ => false end.

End Py.

Import Py.

Local Open Scope list_scope.

(** ** Collaborators

    One entry of the trace per call that leaves the core: the recogniser
    started on a reference text, a text handed to [speak], a pause, a
    line on the console. *)

Inductive console : Type :=
| NoSpeechNotice                          (* printed by the assessment *)
| RetryNotice                             (* printed by the loop on a falsy result *)
| ScoresHeading                           (* "Phoneme-level scores:" *)
| ScoreLine (ph : string) (sc : number).       (* "{ph}: {sc:.1f}%" *)

Inductive event : Type :=
| Recognize (reference_text : string)
| Speak (text : string)
| Sleep (seconds : Q)
| Print (line : console).

(** What the recogniser delivers for one utterance: no recognised speech,
    or the words of the assessment result, each with its phonemes and
    their accuracy scores (a result without words, or a word without
    phonemes, is an empty list). *)
Inductive recognition : Type :=
| NoSpeech
| Recognized (words : list (list (string * number))).

(** How a run over finitely many utterances ends: the word was accepted
    and the loop left, or the loop is inside the recogniser waiting for the
    next utterance. *)
Inductive outcome : Type :=
| Accepted
| AwaitingSpeech.

(** [not phoneme_scores]: [None] and the empty dictionary are falsy. *)
Definition falsy {V} (x : option (dict V)) : bool :=
  match x with
  | None => true
  | Some [] => true
  | Some (_ :: _) => false
  end.

(** The loop that fills [phoneme_scores] from the words of a result. *)
Definition collect_scores (words : list (list (string * number))) : dict number :=
  fold_left
    (fun scores word =>
       fold_left (fun scores p => dict_set scores (fst p) (snd p)) word scores)
    words [].

(** A phoneme entry is low-scoring when its score is strictly below the
    threshold. *)
Definition below (threshold : Z) (p : string * number) : bool :=
  num_lt (snd p) (inject_Z threshold).

(** A score mapping without a NaN score. *)
Definition nan_free (scores : dict number) : bool :=
  forallb (fun p => negb (is_nan (snd p))) scores.

(** The texts handed to [speak] and the reference texts given to the
    recogniser, in order. *)
Fixpoint spoken (tr : list event) : list string :=
  match tr with
  | [] => []
  | Speak text :: r => text :: spoken r
  | _ :: r => spoken r
  end.

Fixpoint recognitions (tr : list event) : list string :=
  match tr with
  | [] => []
  | Recognize w :: r => w :: recognitions r
  | _ :: r => recognitions r
  end.

(** ** The phoneme notation translator

    The two files define [azure_phoneme_to_text] with the same body; the
    tables are local to the function and written out in each file. *)

Module Translator.

(** The body shared by both files, over the two tables. *)
Definition translate_with (mapping single_letter_mapping : dict string)
           (phoneme : string) : string :=
  let base := lower (join_if (fun c => negb (isdigit c)) phoneme) in
  let text := dict_get_default mapping base base in
  if (String.length text =? 1)%nat && dict_in text single_letter_mapping
  then dict_get_default single_letter_mapping text text
  else text.

(** The digit-stripped, lower-cased form of a symbol. *)
Definition base_of (phoneme : string) : string :=
  lower (join_if (fun c => negb (isdigit c)) phoneme).

(** A string of digit characters only, and a string without any. *)
Definition all_digits (s : string) : Prop := all_chars isdigit s = true.

Definition digit_free (s : string) : Prop :=
  all_chars (fun c => negb (isdigit c)) s = true.

End Translator.

Module Main.

Definition THRESHOLD : Z := 80.

Definition mapping : dict string :=
  [ ("aa", "ah"); ("ae", "uh"); ("ah", "uh"); ("ax", "uh"); ("ao", "aw");
    ("aw", "ow"); ("ay", "eye"); ("b", "b"); ("ch", "ch"); ("d", "d");
    ("dh", "th"); ("eh", "eh"); ("er", "er"); ("ey", "ay"); ("f", "f");
    ("g", "g"); ("hh", "h"); ("ih", "ih"); ("iy", "ee"); ("jh", "j");
    ("k", "k"); ("l", "l"); ("m", "m"); ("n", "n"); ("ng", "ng");
    ("ow", "oh"); ("oy", "oy"); ("p", "p"); ("r", "r"); ("s", "s");
    ("sh", "sh"); ("t", "t"); ("th", "th"); ("uh", "oo"); ("uw", "oo");
    ("v", "v"); ("w", "w"); ("y", "y"); ("z", "z"); ("zh", "zh");
    ("axr", "er") ].

Definition single_letter_mapping : dict string :=
  [ ("a", "ay"); ("b", "buh"); ("c", "cuh"); ("d", "duh"); ("e", "ee");
    ("f", "fuh"); ("g", "guh"); ("h", "huh"); ("i", "eye"); ("j", "juh");
    ("k", "kuh"); ("l", "luh"); ("m", "muh"); ("n", "nuh"); ("o", "oh");
    ("p", "puh"); ("q", "koo"); ("r", "ruh"); ("s", "suh"); ("t", "tuh");
    ("u", "oo"); ("v", "vuh"); ("w", "wuh"); ("x", "ex"); ("y", "yuh");
    ("z", "zuh") ].

Definition azure_phoneme_to_text (phoneme : string) : string :=
  let base := lower (join_if (fun c => negb (isdigit c)) phoneme) in
  let text := dict_get_default mapping base base in
  if (String.length text =? 1)%nat && dict_in text single_letter_mapping
  then dict_get_default single_letter_mapping text text
  else text.

(** The same body with the subscript [single_letter_mapping[text]] as
    Python evaluates it: a missing key raises, which is [None] here. *)
Definition azure_phoneme_to_text_checked (phoneme : string) : option string :=
  let base := lower (join_if (fun c => negb (isdigit c)) phoneme) in
  let text := dict_get_default mapping base base in
  if (String.length text =? 1)%nat && dict_in text single_letter_mapping
  then dict_get single_letter_mapping text
  else Some text.

(** [PROMPTS]; every key the code subscripts is a key of the literal. *)
Definition PROMPTS : dict string :=
  [ ("intro", "Let's practice the word {}.");
    ("phoneme_practice", "Let's practice the sound {}.");
    ("repeat_phoneme", "Your turn: {}");
    ("whole_word", "Now try saying the whole word: {}");
    ("success_phoneme", "Nice! Much better!");
    ("all_correct", "Great job! You pronounced the word correctly!") ].

Definition prompt (key : string) : string := dict_get_default PROMPTS key "".

(** [assess_pronunciation_phonemes]: the call up to the recogniser, and
    what it returns on the recogniser's result. *)
Definition assess_call (target_word : string) : list event :=
  [Recognize target_word].

Definition assess_return (r : recognition) : list event * option (dict number) :=
  match r with
  | NoSpeech => ([Print NoSpeechNotice], None)
  | Recognized words => ([], Some (collect_scores words))
  end.

Section Loop.

(** The module constant [THRESHOLD], taken as a parameter. *)
Variable threshold : Z.

(** [{ph: sc for ph, sc in phoneme_scores.items() if sc < THRESHOLD}]:
    the entries are visited in order, and an entry that passes the
    test is assigned into the new dictionary. *)
Definition keep_low (low : dict number) (p : string * number) : dict number :=
  if num_lt (snd p) (inject_Z threshold)
  then dict_set low (fst p) (snd p)
  else low.

Definition low_scores_of (phoneme_scores : dict number) : dict number :=
  fold_left keep_low phoneme_scores [].

(** The body of [for ph in low_scores]. *)
Definition drill (ph : string) : list event :=
  let readable := azure_phoneme_to_text ph in
  [ Speak (format (prompt "phoneme_practice") readable);
    Speak (format (prompt "repeat_phoneme") readable);
    Sleep (1 # 2);
    Speak (prompt "success_phoneme") ].

(** One pass through the body of [while True], after the assessment
    has returned; the flag tells whether [break] was reached. *)
Definition round (target_word : string) (phoneme_scores : option (dict number))
  : list event * bool :=
  if falsy phoneme_scores then ([Print RetryNotice], false)
  else
    let scores := match phoneme_scores with Some d => d | None => [] end in
    let report :=
      Print ScoresHeading
      :: map (fun p => Print (ScoreLine (fst p) (snd p))) scores in
    let low_scores := low_scores_of scores in
    match low_scores with
    | [] => (report ++ [Speak (prompt "all_correct")], true)
    | _ :: _ =>
        (report
           ++ flat_map drill (keys low_scores)
           ++ [ Speak (format (prompt "whole_word") target_word);
                Sleep 1 ],
         false)
    end.

Fixpoint practice_word_at (target_word : string) (inputs : list recognition)
  : list event * outcome :=
  match inputs with
  | [] => (assess_call target_word, AwaitingSpeech)
  | r :: rest =>
      let heard := assess_return r in
      let done := round target_word (snd heard) in
      if snd done
      then (assess_call target_word ++ fst heard ++ fst done, Accepted)
      else
        let later := practice_word_at target_word rest in
        (assess_call target_word ++ fst heard ++ fst done ++ fst later,
         snd later)
  end.

End Loop.

Definition low_scores : dict number -> dict number := low_scores_of THRESHOLD.

Definition practice_word : string -> list recognition -> list event * outcome :=
  practice_word_at THRESHOLD.

End Main.


Module Main2.

Definition mapping : dict string :=
  [ ("aa", "ah"); ("ae", "uh"); ("ah", "uh"); ("ax", "uh"); ("ao", "aw");
    ("aw", "ow"); ("ay", "eye"); ("b", "b"); ("ch", "ch"); ("d", "d");
    ("dh", "th"); ("eh", "eh"); ("er", "er"); ("ey", "ay"); ("f", "f");
    ("g", "g"); ("hh", "h"); ("ih", "ih"); ("iy", "ee"); ("jh", "j");
    ("k", "k"); ("l", "l"); ("m", "m"); ("n", "n"); ("ng", "ng");
    ("ow", "oh"); ("oy", "oy"); ("p", "p"); ("r", "r"); ("s", "s");
    ("sh", "sh"); ("t", "t"); ("th", "th"); ("uh", "oo"); ("uw", "oo");
    ("v", "v"); ("w", "w"); ("y", "y"); ("z", "z"); ("zh", "zh");
    ("axr", "er") ].

Definition single_letter_mapping : dict string :=
  [ ("a", "ay"); ("b", "buh"); ("c", "cuh"); ("d", "duh"); ("e", "ee");
    ("f", "fuh"); ("g", "guh"); ("h", "heh"); ("i", "eye"); ("j", "juh");
    ("k", "kuh"); ("l", "luh"); ("m", "muh"); ("n", "nuh"); ("o", "oh");
    ("p", "puh"); ("q", "koo"); ("r", "ruh"); ("s", "suh"); ("t", "tuh");
    ("u", "oo"); ("v", "vuh"); ("w", "wuh"); ("x", "ex"); ("y", "yuh");
    ("z", "zuh") ].

Definition azure_phoneme_to_text (phoneme : string) : string :=
  let base := lower (join_if (fun c => negb (isdigit c)) phoneme) in
  let text := dict_get_default mapping base base in
  if (String.length text =? 1)%nat && dict_in text single_letter_mapping
  then dict_get_default single_letter_mapping text text
  else text.

(** The same body with the subscript [single_letter_mapping[text]] as
    Python evaluates it: a missing key raises, which is [None] here. *)
Definition azure_phoneme_to_text_checked (phoneme : string) : option string :=
  let base := lower (join_if (fun c => negb (isdigit c)) phoneme) in
  let text := dict_get_default mapping base base in
  if (String.length text =? 1)%nat && dict_in text single_letter_mapping
  then dict_get single_letter_mapping text
  else Some text.

Definition PROMPTS : dict string :=
  [ ("intro", "Let's practice the word {}.");
    ("phoneme_practice", "Let's practice the sound {}.");
    ("repeat_phoneme", "That's not quite right, can you say ");
    ("success_phoneme", "Nice! Much better!");
    ("all_correct", "Great job! You pronounced all the sounds correctly.") ].

Definition prompt (key : string) : string := dict_get_default PROMPTS key "".

(** [assess_pronunciation_phonemes] announces itself before it starts
    the recogniser. *)
Definition assess_call (target_word : string) : list event :=
  [ Speak ("Please say the word " ++ target_word ++ " now.")%string;
    Recognize target_word ].

Definition assess_return (r : recognition) : list event * option (dict number) :=
  match r with
  | NoSpeech => ([Print NoSpeechNotice], None)
  | Recognized words => ([], Some (collect_scores words))
  end.

Section Loop.

(** [THRESHOLD] is read from the environment when the module loads. *)
Variable THRESHOLD : Z.

Definition drill (phoneme : string) : list event :=
  let readable := azure_phoneme_to_text phoneme in
  [ Speak (prompt "repeat_phoneme");
    Sleep (1 # 5);
    Speak readable;
    Sleep (1 # 2);
    Speak (prompt "success_phoneme") ].

(** The body of [for phoneme, score in phoneme_scores.items()], on the
    counter [low_scores] and the prompts emitted so far. *)
Definition feedback_step (st : Z * list event) (p : string * number)
  : Z * list event :=
  if num_lt (snd p) (inject_Z THRESHOLD)
  then ((fst st + 1)%Z, snd st ++ drill (fst p))
  else st.

Definition give_phoneme_feedback (word : string) (phoneme_scores : dict number)
  : list event :=
  let st := fold_left feedback_step phoneme_scores (0%Z, []) in
  if (fst st =? 0)%Z
  then snd st ++ [Speak (prompt "all_correct")]
  else snd st.

(** [all(score >= THRESHOLD for score in phoneme_scores.values())] *)
Definition all_correct (phoneme_scores : dict number) : bool :=
  forallb (fun score => num_ge score (inject_Z THRESHOLD))
          (values phoneme_scores).

Definition round (target_word : string) (phoneme_scores : option (dict number))
  : list event * bool :=
  if falsy phoneme_scores then ([Print RetryNotice], false)
  else
    let scores := match phoneme_scores with Some d => d | None => [] end in
    let report :=
      Print ScoresHeading
      :: map (fun p => Print (ScoreLine (fst p) (snd p))) scores in
    (report ++ give_phoneme_feedback target_word scores, all_correct scores).

(** The [while True] of [main], for a given target word. *)
Fixpoint main_loop (target_word : string) (inputs : list recognition)
  : list event * outcome :=
  match inputs with
  | [] => (assess_call target_word, AwaitingSpeech)
  | r :: rest =>
      let heard := assess_return r in
      let done := round target_word (snd heard) in
      if snd done
      then (assess_call target_word ++ fst heard ++ fst done, Accepted)
      else
        let later := main_loop target_word rest in
        (assess_call target_word ++ fst heard ++ fst done ++ fst later,
         snd later)
  end.

Definition main : list recognition -> list event * outcome :=
  main_loop "apple".

End Loop.

End Main2.

(** ** Speaking a text: synthesis, casting and local playback

    [speak] and [get_google_home_cast] are sequences of calls to the
    operating system and to libraries, each of which may raise.  A run is
    the list of the program points it went through, each marked as done or
    failed, with the value returned or the exception raised.  Which points
    raise, and what the device listings return, is given from outside; in
    one run every point is passed at most once.  What is raised is an
    ordinary exception (an [Exception]; the port test raises [OSError]).
    The loops that wait for the end of a playback are taken to end, and
    console output is left out. *)

Module Playback.

(** A cast device, as returned by the library. *)
Definition device : Type := nat.

(** Where the address given to the cast device comes from. *)
Inductive address : Type :=
| Probed      (* s.getsockname()[0] *)
| Resolved.   (* socket.gethostbyname(hostname) *)

(** The program points.  Calls in a row with no handler between them and
    no effect the properties speak of are one point. *)
Inductive site : Type :=
| Convert (text : string)  (* eleven_client.text_to_speech.convert *)
| CreateTemp               (* tempfile.NamedTemporaryFile(delete=False) *)
| WriteChunks              (* for chunk in audio_stream: f.write(chunk) *)
| CachedWait               (* _cast.wait() on the cached connection *)
| ConnectIp                (* pychromecast.Chromecast(GOOGLE_HOME_IP) *)
| ListNamed                (* get_listed_chromecasts(friendly_names=[...]) *)
| ListAll                  (* get_listed_chromecasts() *)
| StopDiscovery            (* browser.stop_discovery() *)
| FreshWait                (* _cast.wait() on the new connection *)
| BindTest (port : Z)      (* socket, bind(('', port)), close *)
| OpenProbe                (* socket.socket(AF_INET, SOCK_DGRAM) *)
| ProbeAddress             (* s.connect(("8.8.8.8", 80)); getsockname *)
| ResolveHost              (* gethostname; gethostbyname *)
| CloseProbe               (* s.close() *)
| GetCwd                   (* os.getcwd() *)
| ChdirTemp                (* os.chdir(temp_dir) *)
| StartServer (port : Z)   (* TCPServer(("", port), handler); thread start *)
| CastMedia (from : address) (port : Z)
                           (* register_handler, play_media,
                              block_until_active, wait while is_playing *)
| ShutdownServer           (* httpd.shutdown() *)
| ChdirBack                (* os.chdir(original_dir) *)
| UnlinkAfterCast          (* os.unlink(temp_path), in the cast path *)
| MixerInit                (* pygame.mixer.init() *)
| MixerLoad                (* pygame.mixer.music.load(temp_path) *)
| MixerPlay                (* play(); wait while get_busy() *)
| UnlinkAfterLocal.        (* os.unlink(temp_path), after local playback *)

Inductive step : Type :=
| Done (s : site)
| Failed (s : site).

Inductive exn : Type :=
| Raised (s : site)   (* the exception raised by the call at this point *)
| NoFreePort.         (* Exception("Could not find an available port ...") *)

Inductive result (A : Type) : Type :=
| Ok (a : A)
| Err (e : exn).

Arguments Ok {A} a.
Arguments Err {A} e.

(** A computation: the steps taken, and how it ended. *)
Definition M (A : Type) : Type := list step * result A.

Definition ret {A} (a : A) : M A := ([], Ok a).

Definition raise {A} (e : exn) : M A := ([], Err e).

Definition bind {A B} (m : M A) (f : A -> M B) : M B :=
  match snd m with
  | Ok a => (fst m ++ fst (f a), snd (f a))
  | Err e => (fst m, Err e)
  end.

(** [try: m  except Exception: h] *)
Definition try_except {A} (m : M A) (h : exn -> M A) : M A :=
  match snd m with
  | Ok a => m
  | Err e => (fst m ++ fst (h e), snd (h e))
  end.

(** [try: m  finally: fin]: an exception of [fin] replaces the outcome
    of [m]. *)
Definition try_finally {A} (m : M A) (fin : M unit) : M A :=
  match snd fin with
  | Ok _ => (fst m ++ fst fin, snd m)
  | Err e => (fst m ++ fst fin, Err e)
  end.

(** [try: m  except: pass] *)
Definition swallow (m : M unit) : M unit := (fst m, Ok tt).

Notation "x <- m ;; k" := (bind m (fun x => k))
  (at level 61, m at next level, right associativity).
Notation "m ;; k" := (bind m (fun _ => k))
  (at level 61, right associativity).

Section World.

(** The points that raise in this run. *)
Variable raises : site -> bool.

(** The module constants, read from the environment at start-up. *)
Variable CHROMECAST_AVAILABLE : bool.
Variable GOOGLE_HOME_IP : string.
Variable GOOGLE_HOME_NAME : string.

(** What the library returns where it does not raise: the connection
    built from the address, and the devices listed by name and in all. *)
Variable ip_device : device.
Variable named_devices : list device.
Variable all_devices : list device.

Definition call (s : site) : M unit :=
  if raises s then ([Failed s], Err (Raised s)) else ([Done s], Ok tt).

(** [if s:] on a string. *)
Definition nonempty (s : string) : bool :=
  match s with EmptyString => false | String _ _ => true end.

(** The address branch: [_cast] is assigned the connection, which is
    then awaited. *)
Definition pick_address : list step * option device * option device :=
  if raises ConnectIp then ([Failed ConnectIp], None, None)
  else
    if raises FreshWait
    then ([Done ConnectIp; Failed FreshWait], Some ip_device, None)
    else ([Done ConnectIp; Done FreshWait], Some ip_device, Some ip_device).

(** The listing branches: an empty listing raises; otherwise the first
    device listed is assigned to [_cast], the discovery is stopped and the
    connection is awaited. *)
Definition pick_listed (listing : site) (found : list device)
  : list step * option device * option device :=
  if raises listing then ([Failed listing], None, None)
  else
    match found with
    | [] => ([Done listing], None, None)
    | c :: _ =>
        if raises StopDiscovery
        then ([Done listing; Failed StopDiscovery], Some c, None)
        else
          if raises FreshWait
          then ([Done listing; Done StopDiscovery; Failed FreshWait], Some c, None)
          else ([Done listing; Done StopDiscovery; Done FreshWait], Some c, Some c)
    end.

(** The second [try] of [get_google_home_cast], entered with [_cast]
    empty: the steps, the new [_cast], the value returned. *)
Definition connect : list step * option device * option device :=
  if nonempty GOOGLE_HOME_IP
  then pick_address
  else if nonempty GOOGLE_HOME_NAME
       then pick_listed ListNamed named_devices
       else pick_listed ListAll all_devices.

(** [get_google_home_cast()], from the global [_cast]: the steps, the
    new [_cast], the value returned. *)
Definition get_google_home_cast (_cast : option device)
  : list step * option device * option device :=
  if negb CHROMECAST_AVAILABLE then ([], _cast, None)
  else
    match _cast with
    | Some c =>
        if raises CachedWait
        then
          match connect with
          | (tr, cache, returned) => (Failed CachedWait :: tr, cache, returned)
          end
        else ([Done CachedWait], Some c, Some c)
    | None => connect
    end.

(** The port search of [speak]: [for attempt in range(10)] with its
    [else]. *)
Fixpoint find_port (attempts : nat) (port : Z) : M Z :=
  match attempts with
  | O => raise NoFreePort
  | S n =>
      try_except (call (BindTest port) ;; ret port)
                 (fun _ => find_port n (port + 1)%Z)
  end.

Definition local_address : M address :=
  call OpenProbe ;;
  try_finally
    (try_except (call ProbeAddress ;; ret Probed)
                (fun _ => call ResolveHost ;; ret Resolved))
    (call CloseProbe).

(** The body of the outer [try] of [speak] once the port is found, up
    to its [return]. *)
Definition serve_and_cast (port : Z) : M unit :=
  from <- local_address ;;
  call GetCwd ;;
  call ChdirTemp ;;
  call (StartServer port) ;;
  try_finally
    (call (CastMedia from port))
    (call ShutdownServer ;; call ChdirBack ;; swallow (call UnlinkAfterCast)).

Definition cast_audio : M unit :=
  port <- find_port 10 8000 ;;
  serve_and_cast port.

(** The local playback at the end of [speak]; it is all of the playback
    in [main2.py]. *)
Definition play_locally : M unit :=
  try_finally
    (call MixerInit ;; call MixerLoad ;; call MixerPlay)
    (swallow (call UnlinkAfterLocal)).

(** [speak] of [main.py] once the audio is in the temporary file. *)
Definition play (cast : option device) : M unit :=
  match cast with
  | Some _ => try_except cast_audio (fun _ => play_locally)
  | None => play_locally
  end.

Definition synthesize (text : string) : M unit :=
  call (Convert text) ;; call CreateTemp ;; call WriteChunks.

(** [speak(text)] of [main.py], from the global [_cast]: the run, and
    the new [_cast]. *)
Definition speak (text : string) (_cast : option device)
  : M unit * option device :=
  match snd (synthesize text) with
  | Err e => ((fst (synthesize text), Err e), _cast)
  | Ok _ =>
      match get_google_home_cast _cast with
      | (tr, cache, cast) =>
          ((fst (synthesize text) ++ tr ++ fst (play cast), snd (play cast)),
           cache)
      end
  end.

(** [speak(text)] of [main2.py]. *)
Definition speak2 (text : string) : M unit :=
  synthesize text ;; play_locally.

End World.

(** The part of the program a point belongs to. *)
Inductive stage : Type :=
| Synthesis
| Connection
| PortSearch
| Casting
| LocalPlayback.

Definition stage_of (s : site) : stage :=
  match s with
  | Convert _ | CreateTemp | WriteChunks => Synthesis
  | CachedWait | ConnectIp | ListNamed | ListAll | StopDiscovery | FreshWait =>
      Connection
  | BindTest _ => PortSearch
  | MixerInit | MixerLoad | MixerPlay | UnlinkAfterLocal => LocalPlayback
  | _ => Casting
  end.

Definition site_of (s : step) : site :=
  match s with Done x => x | Failed x => x end.

(** The attempts to remove the temporary file. *)
Definition is_unlink (s : step) : bool :=
  match s with
  | Done UnlinkAfterCast | Failed UnlinkAfterCast
  | Done UnlinkAfterLocal | Failed UnlinkAfterLocal => true
  | _ => false
  end.

End Playback.

(** ** Notions used to state further properties *)

(** The elements of a list in the order of their first occurrence, each
    once; [seen] holds the elements already met. *)
Fixpoint dedup_from (seen l : list string) : list string :=
  match l with
  | [] => []
  | x :: r =>
      if existsb (String.eqb x) seen
      then dedup_from seen r
      else x :: dedup_from (x :: seen) r
  end.

Definition first_occurrences (l : list string) : list string := dedup_from [] l.

(** The phonemes of a result whose last score is below the threshold,
    each once, in the order of their first occurrence. *)
Definition low_by_last (threshold : Z) (items : list (string * number))
  : list string :=
  filter (fun ph => match dict_get (rev items) ph with
                    | Some sc => num_lt sc (inject_Z threshold)
                    | None => false
                    end)
         (first_occurrences (map fst items)).

(** An utterance the loops evaluate: speech was recognised and the result
    holds at least one phoneme. *)
Definition usable (r : recognition) : bool :=
  match r with
  | NoSpeech => false
  | Recognized words =>
      match collect_scores words with [] => false | _ :: _ => true end
  end.

(** A usable utterance in which no score is below the threshold: the
    test of [main.py]. *)
Definition passes (threshold : Z) (r : recognition) : bool :=
  match r with
  | NoSpeech => false
  | Recognized words =>
      usable r && forallb (fun p => negb (below threshold p)) (collect_scores words)
  end.

(** The same by the test of [main2.py]: every score is at or above the
    threshold. *)
Definition reaches (threshold : Z) (r : recognition) : bool :=
  match r with
  | NoSpeech => false
  | Recognized words =>
      usable r
      && forallb (fun p => num_ge (snd p) (inject_Z threshold))
                 (collect_scores words)
  end.

(** An utterance whose scores hold no NaN. *)
Definition without_nan (r : recognition) : bool :=
  match r with
  | NoSpeech => true
  | Recognized words => nan_free (collect_scores words)
  end.

(** The number of utterances a loop asks for, when [pass] tells which
    utterance makes it leave: one for each utterance up to the first that
    passes, and one more when none passes. *)
Fixpoint attempts_by (pass : recognition -> bool) (inputs : list recognition)
  : nat :=
  match inputs with
  | [] => 1
  | r :: rest => if pass r then 1 else S (attempts_by pass rest)
  end.

Import Translator.

(** * Properties *)

(** ** Strings and dictionaries *)

Section StringFacts.

Lemma append_empty_r (s : string) : (s ++ "")%string = s.
Proof. induction s as [|c r IH]; simpl; [reflexivity | now rewrite IH]. Qed.

Lemma join_if_app (p : ascii -> bool) (a b : string) :
  join_if p (a ++ b)%string = (join_if p a ++ join_if p b)%string.
Proof.
  induction a as [|c r IH]; simpl; [reflexivity|].
  destruct (p c); simpl; now rewrite IH.
Qed.

Lemma join_if_digits (s : string) :
  all_digits s -> join_if (fun c => negb (isdigit c)) s = "".
Proof.
  unfold all_digits.
  induction s as [|c r IH]; simpl; [reflexivity|].
  intros H. apply andb_true_iff in H as [Hc Hr].
  rewrite Hc. simpl. auto.
Qed.

Lemma join_if_digit_free (s : string) :
  digit_free (join_if (fun c => negb (isdigit c)) s).
Proof.
  unfold digit_free.
  induction s as [|c r IH]; simpl; [reflexivity|].
  destruct (isdigit c) eqn:E; simpl; [assumption|].
  now rewrite E, IH.
Qed.

Lemma lower_char_not_digit (c : ascii) :
  isdigit c = false -> isdigit (lower_char c) = false.
Proof.
  destruct c as [[] [] [] [] [] [] [] []]; vm_compute; intros H;
    first [reflexivity | assumption].
Qed.

Lemma lower_digit_free (s : string) : digit_free s -> digit_free (lower s).
Proof.
  unfold digit_free.
  induction s as [|c r IH]; simpl; [reflexivity|].
  intros H. apply andb_true_iff in H as [Hc Hr].
  apply negb_true_iff in Hc.
  now rewrite (lower_char_not_digit c Hc), IH.
Qed.

Lemma base_of_digit_free (phoneme : string) : digit_free (base_of phoneme).
Proof. apply lower_digit_free, join_if_digit_free. Qed.

Lemma base_of_app_digits (s d : string) :
  all_digits d -> base_of (s ++ d) = base_of s.
Proof.
  intros H. unfold base_of.
  now rewrite join_if_app, (join_if_digits d H), append_empty_r.
Qed.

Lemma base_of_digits (s : string) : all_digits s -> base_of s = "".
Proof. intros H. unfold base_of. now rewrite (join_if_digits s H). Qed.

End StringFacts.

Section DictFacts.

Context {V : Type}.

Lemma dict_get_In (d : dict V) (k : string) (v : V) :
  dict_get d k = Some v -> In (k, v) d.
Proof.
  induction d as [|[k' v'] r IH]; simpl; [discriminate|].
  destruct (String.eqb k k') eqn:E.
  - apply String.eqb_eq in E. intros H. injection H as ->. subst. now left.
  - intros H. right. auto.
Qed.

Lemma dict_set_fresh (d : dict V) (k : string) (v : V) :
  ~ In k (keys d) -> dict_set d k v = d ++ [(k, v)].
Proof.
  induction d as [|[k' v'] r IH]; simpl; [reflexivity|].
  intros H. destruct (String.eqb k k') eqn:E.
  - apply String.eqb_eq in E. subst. exfalso. apply H. now left.
  - f_equal. apply IH. intros Hin. apply H. now right.
Qed.

Lemma dict_wf_unique (d : dict V) (k : string) (v v' : V) :
  dict_wf d -> In (k, v) d -> In (k, v') d -> v = v'.
Proof.
  unfold dict_wf, keys.
  induction d as [|[k0 v0] r IH]; simpl; [contradiction|].
  intros Hnd H1 H2. inversion Hnd as [|? ? Hnot Hnd']; subst.
  destruct H1 as [H1|H1], H2 as [H2|H2].
  - congruence.
  - injection H1 as -> ->. exfalso. apply Hnot.
    change k with (fst (k, v')). now apply in_map.
  - injection H2 as -> ->. exfalso. apply Hnot.
    change k with (fst (k, v)). now apply in_map.
  - eauto.
Qed.

End DictFacts.

(** ** The translator *)

Section TranslateWith.

Variables mapping single_letter_mapping : dict string.

Lemma translate_with_same_base (p q : string) :
  base_of p = base_of q -> translate_with mapping single_letter_mapping p
  = translate_with mapping single_letter_mapping q.
Proof.
  unfold translate_with, base_of. intros E. now rewrite E.
Qed.

(** The value for a symbol whose base the standard table maps to a text
    of more than one character. *)
Lemma translate_with_long (p v : string) :
  dict_get mapping (base_of p) = Some v ->
  (1 < String.length v)%nat ->
  translate_with mapping single_letter_mapping p = v.
Proof.
  unfold translate_with, base_of, dict_get_default.
  intros Hget Hlen. rewrite Hget.
  destruct (String.length v =? 1)%nat eqn:E; [|reflexivity].
  apply Nat.eqb_eq in E. lia.
Qed.

(** The value for a symbol whose base is not a key of the standard
    table, when every key of the second table is one character long. *)
Lemma translate_with_unmapped (p : string) :
  (forall k v, In (k, v) single_letter_mapping -> String.length k = 1%nat) ->
  dict_in (base_of p) mapping = false ->
  translate_with mapping single_letter_mapping p
  = dict_get_default single_letter_mapping (base_of p) (base_of p).
Proof.
  unfold translate_with, base_of, dict_in, dict_get_default.
  intros Hkeys Hnot.
  set (base := lower (join_if (fun c => negb (isdigit c)) p)) in *.
  destruct (dict_get mapping base); [discriminate|].
  destruct (dict_get single_letter_mapping base) as [v|] eqn:E.
  - apply dict_get_In in E. rewrite (Hkeys _ _ E). reflexivity.
  - now rewrite andb_false_r.
Qed.

Lemma translate_with_digit_free (p : string) :
  (forall k v, In (k, v) mapping -> digit_free v) ->
  (forall k v, In (k, v) single_letter_mapping -> digit_free v) ->
  digit_free (translate_with mapping single_letter_mapping p).
Proof.
  intros Hm Hs. unfold translate_with.
  change (lower (join_if (fun c => negb (isdigit c)) p)) with (base_of p).
  assert (Ht : digit_free (dict_get_default mapping (base_of p) (base_of p))).
  { unfold dict_get_default.
    destruct (dict_get mapping (base_of p)) eqn:E.
    - apply dict_get_In in E. eauto.
    - apply base_of_digit_free. }
  set (text := dict_get_default mapping (base_of p) (base_of p)) in *.
  destruct ((String.length text =? 1)%nat && dict_in text single_letter_mapping);
    [|assumption].
  unfold dict_get_default.
  destruct (dict_get single_letter_mapping text) eqn:E; [|assumption].
  apply dict_get_In in E. eauto.
Qed.

End TranslateWith.

Lemma main_translate (p : string) :
  Main.azure_phoneme_to_text p
  = translate_with Main.mapping Main.single_letter_mapping p.
Proof. reflexivity. Qed.

Lemma main2_translate (p : string) :
  Main2.azure_phoneme_to_text p
  = translate_with Main2.mapping Main2.single_letter_mapping p.
Proof. reflexivity. Qed.

(** The subscript is guarded by the membership test, so it finds its key. *)
Lemma guarded_subscript (d : dict string) (text : string) (b : bool) :
  (if b && dict_in text d then dict_get d text else Some text)
  = Some (if b && dict_in text d then dict_get_default d text text else text).
Proof.
  unfold dict_in, dict_get_default.
  destruct b, (dict_get d text); reflexivity.
Qed.

(** Checks of a whole table, by evaluation. *)
Lemma table_forall (P : string * string -> Prop) (b : string * string -> bool)
      (d : dict string) :
  (forall e, b e = true -> P e) ->
  forallb b d = true ->
  forall k v, In (k, v) d -> P (k, v).
Proof.
  intros Hb Hall k v Hin. apply Hb.
  rewrite forallb_forall in Hall. now apply Hall.
Qed.

Lemma values_digit_free (d : dict string) :
  forallb (fun e => all_chars (fun c => negb (isdigit c)) (snd e)) d = true ->
  Forall (fun e => digit_free (snd e)) d.
Proof.
  intros H. apply Forall_forall. intros e He.
  rewrite forallb_forall in H. now apply H.
Qed.

Lemma values_digit_free_In (d : dict string) (k v : string) :
  Forall (fun e => digit_free (snd e)) d -> In (k, v) d -> digit_free v.
Proof.
  intros H Hin. rewrite Forall_forall in H. now apply (H (k, v)).
Qed.

Lemma single_letter_keys :
  (forall k v, In (k, v) Main.single_letter_mapping -> String.length k = 1%nat)
  /\ (forall k v, In (k, v) Main2.single_letter_mapping -> String.length k = 1%nat).
Proof.
  split;
    apply (table_forall (fun e => String.length (fst e) = 1%nat)
             (fun e => (String.length (fst e) =? 1)%nat));
    solve [intros e; apply Nat.eqb_eq | reflexivity].
Qed.

(** The two second tables differ in one entry, the expansion of ["h"]. *)
Lemma single_letter_tables_agree (k : string) :
  k <> "h" ->
  dict_get Main.single_letter_mapping k = dict_get Main2.single_letter_mapping k.
Proof.
  intros Hk. unfold Main.single_letter_mapping, Main2.single_letter_mapping.
  simpl.
  repeat match goal with
         | |- context [String.eqb k ?s] =>
             destruct (String.eqb k s) eqn:?; try reflexivity
         end.
  exfalso. apply Hk. now apply String.eqb_eq.
Qed.

(** ["hh"] is the one key the standard table sends to ["h"]. *)
Lemma mapping_to_h (base : string) :
  dict_get Main.mapping base = Some "h" -> base = "hh".
Proof.
  intros H. apply dict_get_In in H. unfold Main.mapping in H. simpl in H.
  repeat (destruct H as [H|H]; [try discriminate H; now injection H|]).
  contradiction.
Qed.

(** C4, as stated: a symbol whose base is not a key of the standard table
    is returned as its base.  This fails: the base ["c"] is not a key of
    the standard table, and the second table expands it to ["cuh"]. *)
Lemma unknown_symbol_not_always_unchanged :
  ~ (forall phoneme : string,
       dict_in (base_of phoneme) Main.mapping = false ->
       Main.azure_phoneme_to_text phoneme = base_of phoneme).
Proof.
  intros H. specialize (H "c" eq_refl). discriminate H.
Qed.

(** C4, amended: [azure_phoneme_to_text] is a total function that never
    fails (its one subscript always finds its key), and for a symbol whose
    digit-stripped, lower-cased form is not a key of the standard table it
    returns that form unchanged unless the form is a key of the
    single-letter table, in which case it returns that table's value; so
    [translate "zzq2" = "zzq"].  Both files. *)
Theorem unknown_symbol_fallback (phoneme : string) :
  (dict_in (base_of phoneme) Main.mapping = false ->
     (dict_in (base_of phoneme) Main.single_letter_mapping = false ->
        Main.azure_phoneme_to_text phoneme = base_of phoneme)
     /\ (forall v, dict_get Main.single_letter_mapping (base_of phoneme) = Some v ->
           Main.azure_phoneme_to_text phoneme = v))
  /\ (dict_in (base_of phoneme) Main2.mapping = false ->
        (dict_in (base_of phoneme) Main2.single_letter_mapping = false ->
           Main2.azure_phoneme_to_text phoneme = base_of phoneme)
        /\ (forall v, dict_get Main2.single_letter_mapping (base_of phoneme) = Some v ->
              Main2.azure_phoneme_to_text phoneme = v))
  /\ Main.azure_phoneme_to_text_checked phoneme
     = Some (Main.azure_phoneme_to_text phoneme)
  /\ Main2.azure_phoneme_to_text_checked phoneme
     = Some (Main2.azure_phoneme_to_text phoneme)
  /\ Main.azure_phoneme_to_text "zzq2" = "zzq"
  /\ Main2.azure_phoneme_to_text "zzq2" = "zzq".
Proof.
  destruct single_letter_keys as [K1 K2].
  split; [|split; [|split; [|split; [|split; reflexivity]]]];
    [| |apply guarded_subscript|apply guarded_subscript].
  - intros Hnot. rewrite main_translate.
    rewrite (translate_with_unmapped _ _ _ K1 Hnot).
    unfold dict_in, dict_get_default. split.
    + intros Hs.
      destruct (dict_get Main.single_letter_mapping (base_of phoneme));
        [discriminate | reflexivity].
    + intros v Hv. now rewrite Hv.
  - intros Hnot. rewrite main2_translate.
    rewrite (translate_with_unmapped _ _ _ K2 Hnot).
    unfold dict_in, dict_get_default. split.
    + intros Hs.
      destruct (dict_get Main2.single_letter_mapping (base_of phoneme));
        [discriminate | reflexivity].
    + intros v Hv. now rewrite Hv.
Qed.

Lemma unknown_symbol_fallback_witness :
  Main.azure_phoneme_to_text "zzq2" = base_of "zzq2"
  /\ Main.azure_phoneme_to_text "x0" = "ex"
  /\ Main2.azure_phoneme_to_text "zzq2" = base_of "zzq2"
  /\ Main2.azure_phoneme_to_text "x0" = "ex".
Proof.
  destruct (unknown_symbol_fallback "zzq2") as (HA & HB & _).
  destruct (unknown_symbol_fallback "x0") as (HA' & HB' & _).
  split; [|split; [|split]].
  - apply (proj1 (HA eq_refl)). reflexivity.
  - apply (proj2 (HA' eq_refl) "ex"). reflexivity.
  - apply (proj1 (HB eq_refl)). reflexivity.
  - apply (proj2 (HB' eq_refl) "ex"). reflexivity.
Defined.

(** C5: appending digit characters to a symbol does not change its
    translation, in either file. *)
Theorem stress_stripping (S D : string) :
  all_digits D ->
  Main.azure_phoneme_to_text (S ++ D) = Main.azure_phoneme_to_text S
  /\ Main2.azure_phoneme_to_text (S ++ D) = Main2.azure_phoneme_to_text S.
Proof.
  intros HD. rewrite !main_translate, !main2_translate.
  split; apply translate_with_same_base, base_of_app_digits, HD.
Qed.

Lemma stress_stripping_witness :
  Main.azure_phoneme_to_text ("AH" ++ "01") = Main.azure_phoneme_to_text "AH"
  /\ Main2.azure_phoneme_to_text ("AH" ++ "01") = Main2.azure_phoneme_to_text "AH".
Proof. apply (stress_stripping "AH" "01"). reflexivity. Defined.

(** C6: [translate "g1" = "guh"]: the standard table maps the base ["g"]
    to ["g"], one letter, which the single-letter table expands to
    ["guh"]; a symbol whose standard-table value has more than one letter
    keeps that value.  Both files. *)
Theorem single_letter_expansion :
  Main.azure_phoneme_to_text "g1" = "guh"
  /\ Main2.azure_phoneme_to_text "g1" = "guh"
  /\ base_of "g1" = "g"
  /\ dict_get Main.mapping "g" = Some "g"
  /\ dict_get Main.single_letter_mapping "g" = Some "guh"
  /\ dict_get Main2.mapping "g" = Some "g"
  /\ dict_get Main2.single_letter_mapping "g" = Some "guh"
  /\ (forall phoneme v,
        dict_get Main.mapping (base_of phoneme) = Some v ->
        (1 < String.length v)%nat ->
        Main.azure_phoneme_to_text phoneme = v)
  /\ (forall phoneme v,
        dict_get Main2.mapping (base_of phoneme) = Some v ->
        (1 < String.length v)%nat ->
        Main2.azure_phoneme_to_text phoneme = v).
Proof.
  repeat (split; [reflexivity|]). split.
  - intros phoneme v Hv Hlen. rewrite main_translate.
    now apply translate_with_long.
  - intros phoneme v Hv Hlen. rewrite main2_translate.
    now apply translate_with_long.
Qed.

Lemma single_letter_expansion_witness :
  Main.azure_phoneme_to_text "AY2" = "eye"
  /\ Main2.azure_phoneme_to_text "AY2" = "eye".
Proof.
  destruct single_letter_expansion as (_ & _ & _ & _ & _ & _ & _ & H1 & H2).
  split.
  - apply (H1 "AY2" "eye"); [reflexivity | simpl; lia].
  - apply (H2 "AY2" "eye"); [reflexivity | simpl; lia].
Defined.

(** C8, as stated: the translators of the two files agree on every
    symbol.  This fails at ["hh"]: [main.py] answers ["huh"], [main2.py]
    answers ["heh"]. *)
Lemma translators_differ :
  ~ (forall phoneme : string,
       Main.azure_phoneme_to_text phoneme = Main2.azure_phoneme_to_text phoneme).
Proof.
  intros H. specialize (H "hh"). discriminate H.
Qed.

(** C8, amended: the translators of the two files agree on every symbol
    whose digit-stripped, lower-cased form is neither ["h"] nor ["hh"]; on
    those two forms [main.py] returns ["huh"] and [main2.py] returns
    ["heh"]. *)
Theorem translators_agree_off_h (phoneme : string) :
  (base_of phoneme <> "h" -> base_of phoneme <> "hh" ->
     Main.azure_phoneme_to_text phoneme = Main2.azure_phoneme_to_text phoneme)
  /\ (base_of phoneme = "h" \/ base_of phoneme = "hh" ->
        Main.azure_phoneme_to_text phoneme = "huh"
        /\ Main2.azure_phoneme_to_text phoneme = "heh").
Proof.
  split.
  - intros Hh Hhh.
    unfold Main.azure_phoneme_to_text, Main2.azure_phoneme_to_text.
    change (lower (join_if (fun c => negb (isdigit c)) phoneme))
      with (base_of phoneme).
    change Main2.mapping with Main.mapping.
    set (text := dict_get_default Main.mapping (base_of phoneme) (base_of phoneme)).
    assert (Ht : text <> "h").
    { unfold text, dict_get_default.
      destruct (dict_get Main.mapping (base_of phoneme)) as [v|] eqn:E;
        [|assumption].
      intros ->. apply Hhh. now apply mapping_to_h. }
    unfold dict_in, dict_get_default.
    now rewrite (single_letter_tables_agree text Ht).
  - intros H. rewrite main_translate, main2_translate.
    destruct H as [H|H].
    + rewrite (translate_with_same_base Main.mapping
                 Main.single_letter_mapping phoneme "h" H).
      rewrite (translate_with_same_base Main2.mapping
                 Main2.single_letter_mapping phoneme "h" H).
      split; reflexivity.
    + rewrite (translate_with_same_base Main.mapping
                 Main.single_letter_mapping phoneme "hh" H).
      rewrite (translate_with_same_base Main2.mapping
                 Main2.single_letter_mapping phoneme "hh" H).
      split; reflexivity.
Qed.

Lemma translators_agree_off_h_witness :
  Main.azure_phoneme_to_text "G1" = Main2.azure_phoneme_to_text "G1"
  /\ Main.azure_phoneme_to_text "HH0" = "huh"
  /\ Main2.azure_phoneme_to_text "HH0" = "heh".
Proof.
  split.
  - apply (translators_agree_off_h "G1"); discriminate.
  - apply (translators_agree_off_h "HH0"). right. reflexivity.
Defined.

(** C9: the text returned for any symbol holds no digit character: the
    base is digit-free, and so is every value of the lookup tables.  Both
    files. *)
Theorem translation_digit_free (phoneme : string) :
  digit_free (Main.azure_phoneme_to_text phoneme)
  /\ digit_free (Main2.azure_phoneme_to_text phoneme)
  /\ digit_free (base_of phoneme)
  /\ Forall (fun e => digit_free (snd e)) Main.mapping
  /\ Forall (fun e => digit_free (snd e)) Main.single_letter_mapping
  /\ Forall (fun e => digit_free (snd e)) Main2.mapping
  /\ Forall (fun e => digit_free (snd e)) Main2.single_letter_mapping.
Proof.
  assert (A1 := values_digit_free Main.mapping eq_refl).
  assert (A2 := values_digit_free Main.single_letter_mapping eq_refl).
  assert (B1 := values_digit_free Main2.mapping eq_refl).
  assert (B2 := values_digit_free Main2.single_letter_mapping eq_refl).
  split; [|split; [|split; [|tauto]]].
  - rewrite main_translate.
    apply translate_with_digit_free; intros k v; now apply values_digit_free_In.
  - rewrite main2_translate.
    apply translate_with_digit_free; intros k v; now apply values_digit_free_In.
  - apply base_of_digit_free.
Qed.

(** C10: a symbol made of digit characters only, the empty string
    included, is translated to the empty string.  Both files. *)
Theorem digits_only_symbol (phoneme : string) :
  all_digits phoneme ->
  Main.azure_phoneme_to_text phoneme = ""
  /\ Main2.azure_phoneme_to_text phoneme = "".
Proof.
  intros H. apply base_of_digits in H.
  rewrite main_translate, main2_translate.
  rewrite (translate_with_same_base Main.mapping Main.single_letter_mapping
             phoneme "" H).
  rewrite (translate_with_same_base Main2.mapping Main2.single_letter_mapping
             phoneme "" H).
  split; reflexivity.
Qed.

Lemma digits_only_symbol_witness :
  (Main.azure_phoneme_to_text "012" = "" /\ Main2.azure_phoneme_to_text "012" = "")
  /\ (Main.azure_phoneme_to_text "" = "" /\ Main2.azure_phoneme_to_text "" = "").
Proof.
  split.
  - apply (digits_only_symbol "012"). reflexivity.
  - apply (digits_only_symbol ""). reflexivity.
Defined.

(** ** Scores and traces *)

Lemma num_lt_iff (x y : Q) : num_lt x y = true <-> (x < y)%Q.
Proof. cbn [num_lt]. unfold Qlt. apply Z.ltb_lt. Qed.

Lemma num_ge_iff (x y : Q) : num_ge x y = true <-> (y <= x)%Q.
Proof. cbn [num_ge]. unfold Qle. apply Z.leb_le. Qed.

Lemma num_ge_not_lt (x y : Q) : num_ge x y = negb (num_lt x y).
Proof. cbn [num_ge num_lt]. apply Z.leb_antisym. Qed.

(** Away from NaN the two tests are complementary. *)
Lemma num_ge_not_lt_number (x : number) (y : Q) :
  is_nan x = false -> num_ge x y = negb (num_lt x y).
Proof.
  destruct x as [q| | |]; intros H; try reflexivity; try discriminate H.
  apply num_ge_not_lt.
Qed.

(** A number at or above another is not below it. *)
Lemma num_ge_no_lt (x : number) (y : Q) :
  num_ge x y = true -> num_lt x y = false.
Proof.
  destruct x as [q| | |]; intros H; try reflexivity; try discriminate H.
  rewrite num_ge_not_lt in H. now apply negb_true_iff in H.
Qed.

Lemma below_iff (t : Z) (ph : string) (sc : Q) :
  below t (ph, sc) = true <-> (sc < inject_Z t)%Q.
Proof. apply num_lt_iff. Qed.

Lemma not_below_iff (t : Z) (ph : string) (sc : Q) :
  below t (ph, sc) = false <-> (inject_Z t <= sc)%Q.
Proof.
  unfold below. cbn [snd]. rewrite <- num_ge_iff, num_ge_not_lt.
  now destruct (num_lt sc (inject_Z t)).
Qed.

(** No entry is low-scoring exactly when no score is below the
    threshold. *)
Lemma none_below_iff (t : Z) (scores : dict number) :
  filter (below t) scores = []
  <-> (forall ph sc, In (ph, sc) scores -> num_lt sc (inject_Z t) = false).
Proof.
  induction scores as [|[k v] r IH]; simpl.
  - split; [contradiction | reflexivity].
  - unfold below at 1. cbn [snd].
    destruct (num_lt v (inject_Z t)) eqn:E.
    + split; [discriminate|].
      intros H. specialize (H k v (or_introl eq_refl)). congruence.
    + rewrite IH. split.
      * intros H ph sc [Heq|Hin]; [|now apply (H ph sc)].
        injection Heq as <- <-. exact E.
      * intros H ph sc Hin. apply (H ph sc). now right.
Qed.

Lemma spoken_app (a b : list event) : spoken (a ++ b) = spoken a ++ spoken b.
Proof.
  induction a as [|e r IH]; simpl; [reflexivity|].
  destruct e; simpl; now rewrite IH.
Qed.

Lemma recognitions_app (a b : list event) :
  recognitions (a ++ b) = recognitions a ++ recognitions b.
Proof.
  induction a as [|e r IH]; simpl; [reflexivity|].
  destruct e; simpl; now rewrite IH.
Qed.

(** The printed report of a round neither speaks nor listens. *)
Lemma report_silent (scores : dict number) :
  spoken (map (fun p => Print (ScoreLine (fst p) (snd p))) scores) = []
  /\ recognitions (map (fun p => Print (ScoreLine (fst p) (snd p))) scores) = [].
Proof. induction scores as [|p r [IH1 IH2]]; simpl; auto. Qed.

(** ** The partition of [main.py] *)

Section MainPartition.

Variable t : Z.

Lemma dict_set_not_nil (d : dict number) (k : string) (v : number) : dict_set d k v <> [].
Proof.
  destruct d as [|[k' v'] r]; simpl; [discriminate|].
  destruct (String.eqb k k'); discriminate.
Qed.

Lemma low_fold_filter (d acc : dict number) :
  NoDup (keys acc ++ keys d) ->
  fold_left (Main.keep_low t) d acc = acc ++ filter (below t) d.
Proof.
  revert acc. induction d as [|[k v] r IH]; intros acc Hnd; simpl.
  - now rewrite app_nil_r.
  - unfold keys in Hnd. simpl in Hnd.
    unfold Main.keep_low at 2, below. simpl.
    destruct (num_lt v (inject_Z t)).
    + assert (Hk : ~ In k (keys acc)).
      { intros Hin. apply NoDup_remove_2 in Hnd. apply Hnd.
        apply in_or_app. now left. }
      rewrite (dict_set_fresh acc k v Hk), IH.
      * now rewrite <- app_assoc.
      * unfold keys. rewrite map_app, <- app_assoc. exact Hnd.
    + apply IH. now apply NoDup_remove_1 in Hnd.
Qed.

Lemma low_fold_nil (d acc : dict number) :
  fold_left (Main.keep_low t) d acc = [] <-> acc = [] /\ filter (below t) d = [].
Proof.
  revert acc. induction d as [|[k v] r IH]; intros acc; simpl.
  - tauto.
  - rewrite IH. unfold Main.keep_low, below. simpl.
    destruct (num_lt v (inject_Z t)).
    + split; intros [H1 H2]; [|discriminate].
      now apply dict_set_not_nil in H1.
    + tauto.
Qed.

(** On a dictionary the comprehension is the filter, in the order of
    the entries. *)
Lemma low_scores_of_filter (scores : dict number) :
  dict_wf scores -> Main.low_scores_of t scores = filter (below t) scores.
Proof. intros H. apply (low_fold_filter scores []). exact H. Qed.

Lemma low_scores_of_nil (scores : dict number) :
  Main.low_scores_of t scores = [] <-> filter (below t) scores = [].
Proof.
  unfold Main.low_scores_of. rewrite low_fold_nil. tauto.
Qed.

End MainPartition.

(** ** The feedback of [main2.py] *)

Section Main2Feedback.

Variable t : Z.

Lemma feedback_fold (d : dict number) (st : Z * list event) :
  fold_left (Main2.feedback_step t) d st
  = ((fst st + Z.of_nat (List.length (filter (below t) d)))%Z,
     snd st ++ flat_map (fun p => Main2.drill (fst p)) (filter (below t) d)).
Proof.
  revert st. induction d as [|[k v] r IH]; intros [n out]; simpl.
  - now rewrite Z.add_0_r, app_nil_r.
  - rewrite IH. unfold Main2.feedback_step at 1 2, below. simpl fst. simpl snd.
    destruct (num_lt v (inject_Z t)); [|reflexivity].
    cbn [List.length flat_map fst snd]. f_equal; [lia|].
    now rewrite <- app_assoc.
Qed.

(** The test of [main]: every score is at or above the threshold.  It
    implies that no entry is low-scoring, and is implied by it when no
    score is NaN. *)
Lemma all_correct_forall (d : dict number) :
  Main2.all_correct t d = true
  <-> (forall ph sc, In (ph, sc) d -> num_ge sc (inject_Z t) = true).
Proof.
  unfold Main2.all_correct, values.
  induction d as [|[k v] r IH]; simpl.
  - split; [contradiction | reflexivity].
  - rewrite andb_true_iff, IH. split.
    + intros [Hv Hr] ph sc [Heq|Hin]; [|now apply (Hr ph sc)].
      now injection Heq as <- <-.
    + intros H. split; [now apply (H k v); left|].
      intros ph sc Hin. apply (H ph sc). now right.
Qed.

Lemma all_correct_none_below (d : dict number) :
  Main2.all_correct t d = true -> filter (below t) d = [].
Proof.
  unfold Main2.all_correct, values.
  induction d as [|[k v] r IH]; simpl; [reflexivity|].
  intros H. apply andb_true_iff in H as [Hv Hr].
  unfold below at 1. cbn [snd]. rewrite (num_ge_no_lt _ _ Hv). auto.
Qed.

Lemma all_correct_iff (d : dict number) :
  nan_free d = true ->
  (Main2.all_correct t d = true <-> filter (below t) d = []).
Proof.
  unfold Main2.all_correct, values, nan_free.
  induction d as [|[k v] r IH]; simpl; [tauto|].
  intros H. apply andb_true_iff in H as [Hv Hr].
  apply negb_true_iff in Hv.
  unfold below at 1. cbn [snd]. rewrite (num_ge_not_lt_number _ _ Hv).
  destruct (num_lt v (inject_Z t)); simpl; [split; discriminate | auto].
Qed.

End Main2Feedback.

(** ** The dictionary built by the assessment *)

Lemma dict_set_keys (d : dict number) (k x : string) (v : number) :
  In x (keys (dict_set d k v)) -> x = k \/ In x (keys d).
Proof.
  induction d as [|[k' v'] r IH]; simpl.
  - intros [H|[]]. now left.
  - destruct (String.eqb k k'); simpl; [tauto|].
    intros [H|H]; [tauto|]. apply IH in H. tauto.
Qed.

Lemma dict_set_wf (d : dict number) (k : string) (v : number) :
  dict_wf d -> dict_wf (dict_set d k v).
Proof.
  unfold dict_wf.
  induction d as [|[k' v'] r IH]; simpl; intros Hnd.
  - constructor; [intros [] | constructor].
  - inversion Hnd as [|? ? Hnot Hr]; subst.
    destruct (String.eqb k k') eqn:E; simpl.
    + now constructor.
    + constructor; [|now apply IH].
      intros Hin. apply dict_set_keys in Hin as [->|Hin]; [|now apply Hnot].
      now rewrite String.eqb_refl in E.
Qed.

Lemma collect_word_wf (word : list (string * number)) (d : dict number) :
  dict_wf d ->
  dict_wf (fold_left (fun scores p => dict_set scores (fst p) (snd p)) word d).
Proof.
  revert d. induction word as [|p r IH]; intros d Hd; simpl; [exact Hd|].
  now apply IH, dict_set_wf.
Qed.

Lemma collect_scores_wf (words : list (list (string * number))) :
  dict_wf (collect_scores words).
Proof.
  unfold collect_scores.
  assert (H : forall d, dict_wf d ->
            dict_wf (fold_left
                       (fun scores word =>
                          fold_left
                            (fun scores p => dict_set scores (fst p) (snd p))
                            word scores)
                       words d)).
  { induction words as [|w r IH]; intros d Hd; simpl; [exact Hd|].
    now apply IH, collect_word_wf. }
  apply H. constructor.
Qed.

(** ** The loops, one pass at a time *)

Lemma practice_word_at_cons (t : Z) (w : string) (r : recognition)
      (rest : list recognition) :
  Main.practice_word_at t w (r :: rest)
  = if snd (Main.round t w (snd (Main.assess_return r)))
    then (Main.assess_call w ++ fst (Main.assess_return r)
            ++ fst (Main.round t w (snd (Main.assess_return r))),
          Accepted)
    else (Main.assess_call w ++ fst (Main.assess_return r)
            ++ fst (Main.round t w (snd (Main.assess_return r)))
            ++ fst (Main.practice_word_at t w rest),
          snd (Main.practice_word_at t w rest)).
Proof. reflexivity. Qed.

Lemma main_loop_cons (t : Z) (w : string) (r : recognition)
      (rest : list recognition) :
  Main2.main_loop t w (r :: rest)
  = if snd (Main2.round t w (snd (Main2.assess_return r)))
    then (Main2.assess_call w ++ fst (Main2.assess_return r)
            ++ fst (Main2.round t w (snd (Main2.assess_return r))),
          Accepted)
    else (Main2.assess_call w ++ fst (Main2.assess_return r)
            ++ fst (Main2.round t w (snd (Main2.assess_return r)))
            ++ fst (Main2.main_loop t w rest),
          snd (Main2.main_loop t w rest)).
Proof. reflexivity. Qed.

(** Whatever is still to come, the loop first calls the assessment on its
    target word. *)
Lemma practice_word_at_starts (t : Z) (w : string) (inputs : list recognition) :
  exists tl, fst (Main.practice_word_at t w inputs) = Main.assess_call w ++ tl.
Proof.
  destruct inputs as [|r rest].
  - exists []. reflexivity.
  - rewrite practice_word_at_cons.
    destruct (snd (Main.round t w (snd (Main.assess_return r))));
      eexists; reflexivity.
Qed.

Lemma main_loop_starts (t : Z) (w : string) (inputs : list recognition) :
  exists tl, fst (Main2.main_loop t w inputs) = Main2.assess_call w ++ tl.
Proof.
  destruct inputs as [|r rest].
  - exists []. reflexivity.
  - rewrite main_loop_cons.
    destruct (snd (Main2.round t w (snd (Main2.assess_return r))));
      eexists; reflexivity.
Qed.

(** The pass on a result that holds scores, in [main.py]. *)
Lemma main_round_scores (t : Z) (w : string) (p : string * number) (d : dict number) :
  Main.round t w (Some (p :: d))
  = match Main.low_scores_of t (p :: d) with
    | [] =>
        (Print ScoresHeading
           :: map (fun p => Print (ScoreLine (fst p) (snd p))) (p :: d)
           ++ [Speak (Main.prompt "all_correct")],
         true)
    | low =>
        (Print ScoresHeading
           :: map (fun p => Print (ScoreLine (fst p) (snd p))) (p :: d)
           ++ flat_map Main.drill (keys low)
           ++ [Speak (format (Main.prompt "whole_word") w); Sleep 1],
         false)
    end.
Proof.
  unfold Main.round. cbn [falsy].
  destruct (Main.low_scores_of t (p :: d)); reflexivity.
Qed.

Lemma main2_round_scores (t : Z) (w : string) (p : string * number) (d : dict number) :
  Main2.round t w (Some (p :: d))
  = (Print ScoresHeading
       :: map (fun p => Print (ScoreLine (fst p) (snd p))) (p :: d)
       ++ Main2.give_phoneme_feedback t w (p :: d),
     Main2.all_correct t (p :: d)).
Proof. reflexivity. Qed.

(** The feedback of [main2.py] when no entry is low-scoring. *)
Lemma give_phoneme_feedback_none_low (t : Z) (w : string) (d : dict number) :
  filter (below t) d = [] ->
  Main2.give_phoneme_feedback t w d = [Speak (Main2.prompt "all_correct")].
Proof.
  intros H. unfold Main2.give_phoneme_feedback.
  rewrite feedback_fold, H. reflexivity.
Qed.

Lemma flat_map_keys {B} (f : string -> list B) (d : dict number) :
  flat_map f (keys d) = flat_map (fun p => f (fst p)) d.
Proof.
  unfold keys. induction d as [|p r IH]; simpl; [reflexivity | now rewrite IH].
Qed.

Lemma existsb_filter {A} (f : A -> bool) (l : list A) :
  existsb f l = match filter f l with [] => false | _ :: _ => true end.
Proof.
  induction l as [|x r IH]; simpl; [reflexivity|].
  destruct (f x); [reflexivity | exact IH].
Qed.

(** The feedback of [main2.py]: the drills of the low-scoring entries in
    order, or the all-correct prompt when there is none. *)
Lemma give_phoneme_feedback_run (t : Z) (w : string) (d : dict number) :
  Main2.give_phoneme_feedback t w d
  = flat_map (fun p => Main2.drill (fst p)) (filter (below t) d)
    ++ (if existsb (below t) d
        then []
        else [Speak (Main2.prompt "all_correct")]).
Proof.
  unfold Main2.give_phoneme_feedback.
  rewrite feedback_fold, existsb_filter. cbn [fst snd app].
  destruct (filter (below t) d) as [|q low]; [reflexivity|].
  replace (0 + Z.of_nat (List.length (q :: low)) =? 0)%Z with false.
  - now rewrite app_nil_r.
  - symmetry. apply Z.eqb_neq. cbn [List.length]. lia.
Qed.

(** The pass of [main.py] on a dictionary that holds scores. *)
Lemma main_round_run (t : Z) (w : string) (d : dict number) :
  dict_wf d -> d <> [] ->
  Main.round t w (Some d)
  = (Print ScoresHeading
       :: map (fun p => Print (ScoreLine (fst p) (snd p))) d
       ++ (if existsb (below t) d
           then flat_map (fun p => Main.drill (fst p)) (filter (below t) d)
                ++ [Speak (format (Main.prompt "whole_word") w); Sleep 1]
           else [Speak (Main.prompt "all_correct")]),
     negb (existsb (below t) d)).
Proof.
  intros Hwf Hne. destruct d as [|p d]; [congruence|].
  rewrite main_round_scores, (low_scores_of_filter t _ Hwf), existsb_filter.
  destruct (filter (below t) (p :: d)) as [|q low]; [reflexivity|].
  now rewrite flat_map_keys.
Qed.

(** ** The remediation policy and the practice loop *)

(** C1: a phoneme of the score mapping is low-scoring exactly when its
    score is strictly below the threshold, for every mapping and every
    threshold; on rational scores the test is the strict order, and a NaN
    score is never low.  In [main.py] the phoneme is then a key of
    [low_scores], and the round drills the entries below the threshold, in
    order, and no other; in [main2.py] the loop body counts and drills it,
    and [give_phoneme_feedback] drills the entries below the threshold, in
    order, and no other.  A score equal to the threshold is accepted: with
    threshold 80 the score 80 is accepted and 79.9 is low-scoring. *)
Theorem threshold_partition (t : Z) (scores : dict number) (ph : string)
        (sc : number) (w : string) :
  dict_wf scores ->
  In (ph, sc) scores ->
  (In ph (keys (Main.low_scores_of t scores))
   <-> num_lt sc (inject_Z t) = true)
  /\ (forall q : Q, num_lt q (inject_Z t) = true <-> (q < inject_Z t)%Q)
  /\ (forall y : number, num_lt NaN y = false)
  /\ Main.round t w (Some scores)
     = (Print ScoresHeading
          :: map (fun p => Print (ScoreLine (fst p) (snd p))) scores
          ++ (if existsb (below t) scores
              then flat_map (fun p => Main.drill (fst p))
                     (filter (below t) scores)
                   ++ [Speak (format (Main.prompt "whole_word") w); Sleep 1]
              else [Speak (Main.prompt "all_correct")]),
        negb (existsb (below t) scores))
  /\ (forall st,
        (num_lt sc (inject_Z t) = true ->
           Main2.feedback_step t st (ph, sc)
           = ((fst st + 1)%Z, snd st ++ Main2.drill ph))
        /\ (num_lt sc (inject_Z t) = false ->
              Main2.feedback_step t st (ph, sc) = st))
  /\ fold_left (Main2.feedback_step t) scores (0%Z, [])
     = (Z.of_nat (List.length (filter (below t) scores)),
        flat_map (fun p => Main2.drill (fst p)) (filter (below t) scores))
  /\ Main2.give_phoneme_feedback t w scores
     = flat_map (fun p => Main2.drill (fst p)) (filter (below t) scores)
       ++ (if existsb (below t) scores
           then []
           else [Speak (Main2.prompt "all_correct")])
  /\ Main2.round t w (Some scores)
     = (Print ScoresHeading
          :: map (fun p => Print (ScoreLine (fst p) (snd p))) scores
          ++ Main2.give_phoneme_feedback t w scores,
        Main2.all_correct t scores)
  /\ (In (ph, sc) (filter (below t) scores)
      <-> num_lt sc (inject_Z t) = true)
  /\ Main.low_scores_of 80 [("ah", 80 # 1)] = []
  /\ Main.low_scores_of 80 [("ah", 799 # 10)] = [("ah", 799 # 10)]
  /\ Main2.feedback_step 80 (0%Z, []) ("ah", 80 # 1) = (0%Z, [])
  /\ Main2.feedback_step 80 (0%Z, []) ("ah", 799 # 10) = (1%Z, Main2.drill "ah")
  /\ Main2.give_phoneme_feedback 80 w [("ah", 80 # 1)]
     = [Speak (Main2.prompt "all_correct")]
  /\ Main2.give_phoneme_feedback 80 w [("ah", 799 # 10)] = Main2.drill "ah".
Proof.
  intros Hwf Hin.
  assert (Hne : scores <> []) by (intros E; now rewrite E in Hin).
  assert (Hfilter : In (ph, sc) (filter (below t) scores)
                    <-> num_lt sc (inject_Z t) = true).
  { rewrite filter_In. unfold below. cbn [snd]. tauto. }
  split; [|split; [|split; [|split; [|split; [|split; [|split; [|split;
    [|split; [exact Hfilter|]]]]]]]]].
  - rewrite (low_scores_of_filter t scores Hwf), <- Hfilter. unfold keys. split.
    + intros H. apply in_map_iff in H as [[k v] [Hk Hv]]. simpl in Hk. subst k.
      assert (Hv' := Hv). apply filter_In in Hv' as [Hv' _].
      now rewrite (dict_wf_unique scores ph sc v Hwf Hin Hv').
    + intros H. change ph with (fst (ph, sc)). now apply in_map.
  - intros q. apply num_lt_iff.
  - intros y. now destruct y.
  - now apply main_round_run.
  - intros st. unfold Main2.feedback_step. cbn [fst snd].
    split; intros H; now rewrite H.
  - rewrite feedback_fold. reflexivity.
  - apply give_phoneme_feedback_run.
  - destruct scores as [|p d]; [congruence|]. apply main2_round_scores.
  - repeat (split; [reflexivity|]). reflexivity.
Qed.

Lemma threshold_partition_witness :
  (In "l" (keys (Main.low_scores_of 80
                   [("hh", 60 # 1); ("eh", 95 # 1); ("l", 40 # 1); ("ow", 90 # 1)]))
   <-> num_lt (40 # 1) (inject_Z 80) = true)
  /\ (In "eh" (keys (Main.low_scores_of 80
                       [("hh", 60 # 1); ("eh", 95 # 1); ("l", 40 # 1); ("ow", 90 # 1)]))
      <-> num_lt (95 # 1) (inject_Z 80) = true).
Proof.
  assert (Hwf : dict_wf [("hh", Num (60 # 1)); ("eh", Num (95 # 1));
                         ("l", Num (40 # 1)); ("ow", Num (90 # 1))]).
  { unfold dict_wf. simpl.
    repeat (constructor; [simpl; intuition discriminate|]). constructor. }
  split.
  - apply (threshold_partition 80 _ "l" (40 # 1) "hello" Hwf). simpl. tauto.
  - apply (threshold_partition 80 _ "eh" (95 # 1) "hello" Hwf). simpl. tauto.
Defined.


(** C3: for the scores hh 60, eh 95, l 40, ow 90 and the threshold 80 of
    [main.py] the low-scoring set is hh, l in that order and the word is
    not accepted; the round drills hh and then l, each through its
    translated form with the practice prompt, the your-turn prompt and the
    encouragement, then prompts the whole word, and the loop calls the
    assessment again.  In general the low set keeps the order of the
    entries of the mapping. *)
Theorem end_to_end_hello :
  Main.low_scores [("hh", 60 # 1); ("eh", 95 # 1); ("l", 40 # 1); ("ow", 90 # 1)]
  = [("hh", 60 # 1); ("l", 40 # 1)]
  /\ snd (Main.round Main.THRESHOLD "hello"
            (Some [("hh", 60 # 1); ("eh", 95 # 1); ("l", 40 # 1); ("ow", 90 # 1)]))
     = false
  /\ Main.azure_phoneme_to_text "hh" = "huh"
  /\ Main.azure_phoneme_to_text "l" = "luh"
  /\ (forall rest,
        Main.practice_word "hello"
          (Recognized [[("hh", 60 # 1); ("eh", 95 # 1); ("l", 40 # 1); ("ow", 90 # 1)]]
             :: rest)
        = ([ Recognize "hello";
             Print ScoresHeading;
             Print (ScoreLine "hh" (60 # 1));
             Print (ScoreLine "eh" (95 # 1));
             Print (ScoreLine "l" (40 # 1));
             Print (ScoreLine "ow" (90 # 1));
             Speak "Let's practice the sound huh.";
             Speak "Your turn: huh";
             Sleep (1 # 2);
             Speak "Nice! Much better!";
             Speak "Let's practice the sound luh.";
             Speak "Your turn: luh";
             Sleep (1 # 2);
             Speak "Nice! Much better!";
             Speak "Now try saying the whole word: hello";
             Sleep 1 ]
             ++ fst (Main.practice_word "hello" rest),
           snd (Main.practice_word "hello" rest)))
  /\ (forall rest,
        exists tl, fst (Main.practice_word "hello" rest) = Recognize "hello" :: tl)
  /\ (forall t words,
        Main.low_scores_of t (collect_scores words)
        = filter (below t) (collect_scores words))
  /\ (forall t scores,
        dict_wf scores ->
        Main.low_scores_of t scores = filter (below t) scores).
Proof.
  split; [reflexivity|]. split; [reflexivity|].
  split; [reflexivity|]. split; [reflexivity|].
  split; [intros rest; reflexivity|].
  split; [|split].
  - intros rest. apply (practice_word_at_starts Main.THRESHOLD "hello" rest).
  - intros t words. apply low_scores_of_filter, collect_scores_wf.
  - intros t scores. apply low_scores_of_filter.
Qed.

Lemma end_to_end_hello_witness :
  Main.low_scores_of 50 [("hh", 60 # 1); ("eh", 95 # 1); ("l", 40 # 1); ("ow", 90 # 1)]
  = filter (below 50) [("hh", 60 # 1); ("eh", 95 # 1); ("l", 40 # 1); ("ow", 90 # 1)].
Proof.
  destruct end_to_end_hello as (_ & _ & _ & _ & _ & _ & _ & H).
  apply H. unfold dict_wf. simpl.
  repeat (constructor; [simpl; intuition discriminate|]). constructor.
Defined.

(** C7: a round whose assessment returns nothing (no speech recognised)
    or an empty score mapping is handled the same way by the loop: it
    prints its notice, speaks nothing, evaluates nothing and gives no
    feedback, and goes back to the assessment of the same word.  Both
    files; in [main2.py] the assessment called again announces itself
    before it listens. *)
Theorem no_usable_result_retries (t : Z) (target_word : string)
        (r : recognition) (rest : list recognition) :
  r = NoSpeech \/ (exists words, r = Recognized words /\ collect_scores words = []) ->
  (Main.round t target_word None = Main.round t target_word (Some [])
   /\ Main.round t target_word (snd (Main.assess_return r))
      = ([Print RetryNotice], false)
   /\ spoken (fst (Main.assess_return r)
                ++ fst (Main.round t target_word (snd (Main.assess_return r))))
      = []
   /\ Main.practice_word_at t target_word (r :: rest)
      = (Main.assess_call target_word
           ++ fst (Main.assess_return r)
           ++ [Print RetryNotice]
           ++ fst (Main.practice_word_at t target_word rest),
         snd (Main.practice_word_at t target_word rest))
   /\ (exists tl,
         fst (Main.practice_word_at t target_word rest)
         = Recognize target_word :: tl))
  /\ (Main2.round t target_word None = Main2.round t target_word (Some [])
      /\ Main2.round t target_word (snd (Main2.assess_return r))
         = ([Print RetryNotice], false)
      /\ spoken (fst (Main2.assess_return r)
                   ++ fst (Main2.round t target_word (snd (Main2.assess_return r))))
         = []
      /\ Main2.main_loop t target_word (r :: rest)
         = (Main2.assess_call target_word
              ++ fst (Main2.assess_return r)
              ++ [Print RetryNotice]
              ++ fst (Main2.main_loop t target_word rest),
            snd (Main2.main_loop t target_word rest))
      /\ (exists tl,
            fst (Main2.main_loop t target_word rest)
            = Speak ("Please say the word " ++ target_word ++ " now.")%string
                :: Recognize target_word :: tl)).
Proof.
  intros Hr.
  assert (HA : Main.round t target_word (snd (Main.assess_return r))
               = ([Print RetryNotice], false)).
  { destruct Hr as [->|(words & -> & Hw)]; [reflexivity|].
    cbn [Main.assess_return snd]. now rewrite Hw. }
  assert (HB : Main2.round t target_word (snd (Main2.assess_return r))
               = ([Print RetryNotice], false)).
  { destruct Hr as [->|(words & -> & Hw)]; [reflexivity|].
    cbn [Main2.assess_return snd]. now rewrite Hw. }
  split.
  - split; [reflexivity|]. split; [exact HA|]. split; [|split].
    + rewrite HA. destruct Hr as [->|(words & -> & Hw)]; reflexivity.
    + rewrite practice_word_at_cons, HA. reflexivity.
    + apply (practice_word_at_starts t target_word rest).
  - split; [reflexivity|]. split; [exact HB|]. split; [|split].
    + rewrite HB. destruct Hr as [->|(words & -> & Hw)]; reflexivity.
    + rewrite main_loop_cons, HB. reflexivity.
    + apply (main_loop_starts t target_word rest).
Qed.

Lemma no_usable_result_retries_witness :
  Main.round 80 "hello" (snd (Main.assess_return NoSpeech))
  = ([Print RetryNotice], false)
  /\ Main.round 80 "hello" (snd (Main.assess_return (Recognized [[]; []])))
     = ([Print RetryNotice], false)
  /\ Main2.round 80 "apple" (snd (Main2.assess_return NoSpeech))
     = ([Print RetryNotice], false)
  /\ Main2.round 80 "apple" (snd (Main2.assess_return (Recognized [])))
     = ([Print RetryNotice], false).
Proof.
  split; [|split; [|split]].
  - apply (no_usable_result_retries 80 "hello" NoSpeech []). now left.
  - apply (no_usable_result_retries 80 "hello" (Recognized [[]; []]) []).
    right. exists [[]; []]. split; reflexivity.
  - apply (no_usable_result_retries 80 "apple" NoSpeech []). now left.
  - apply (no_usable_result_retries 80 "apple" (Recognized []) []).
    right. exists []. split; reflexivity.
Defined.

(** * Further properties *)

(** ** The translator *)

Lemma lower_char_idem (c : ascii) : lower_char (lower_char c) = lower_char c.
Proof. destruct c as [[] [] [] [] [] [] [] []]; reflexivity. Qed.

Lemma lower_char_isdigit (c : ascii) : isdigit (lower_char c) = isdigit c.
Proof. destruct c as [[] [] [] [] [] [] [] []]; reflexivity. Qed.

Lemma lower_idem (s : string) : lower (lower s) = lower s.
Proof.
  induction s as [|c r IH]; simpl; [reflexivity|].
  now rewrite lower_char_idem, IH.
Qed.

Lemma join_if_lower (s : string) :
  join_if (fun c => negb (isdigit c)) (lower s)
  = lower (join_if (fun c => negb (isdigit c)) s).
Proof.
  induction s as [|c r IH]; simpl; [reflexivity|].
  rewrite lower_char_isdigit. destruct (isdigit c); simpl; now rewrite IH.
Qed.

Lemma join_if_keeps_digit_free (s : string) :
  digit_free s -> join_if (fun c => negb (isdigit c)) s = s.
Proof.
  unfold digit_free. induction s as [|c r IH]; simpl; [reflexivity|].
  intros H. apply andb_true_iff in H as [Hc Hr]. rewrite Hc. now rewrite IH.
Qed.

Lemma base_of_lower (p : string) : base_of (lower p) = base_of p.
Proof. unfold base_of. now rewrite join_if_lower, lower_idem. Qed.

Lemma base_of_idem (p : string) : base_of (base_of p) = base_of p.
Proof.
  unfold base_of at 1.
  rewrite (join_if_keeps_digit_free _ (base_of_digit_free p)).
  unfold base_of. apply lower_idem.
Qed.

Lemma lower_empty (s : string) : lower s = "" -> s = "".
Proof. destruct s; simpl; [reflexivity | discriminate]. Qed.

Lemma join_if_empty_digits (s : string) :
  join_if (fun c => negb (isdigit c)) s = "" -> all_digits s.
Proof.
  unfold all_digits. induction s as [|c r IH]; simpl; [reflexivity|].
  destruct (isdigit c); simpl; [exact IH | discriminate].
Qed.

Section TranslateWithTables.

Variables mapping single_letter_mapping : dict string.

(** The translation is empty only for an empty base, when no table value
    is empty. *)
Lemma translate_with_empty (p : string) :
  (forall k v, In (k, v) mapping -> v <> "") ->
  (forall k v, In (k, v) single_letter_mapping -> v <> "") ->
  translate_with mapping single_letter_mapping p = "" ->
  base_of p = "".
Proof.
  intros Hm Hs. unfold translate_with.
  change (lower (join_if (fun c => negb (isdigit c)) p)) with (base_of p).
  unfold dict_get_default, dict_in.
  destruct (dict_get mapping (base_of p)) as [v|] eqn:E.
  - apply dict_get_In in E. apply Hm in E.
    destruct (dict_get single_letter_mapping v) as [v'|] eqn:E'.
    + apply dict_get_In in E'. apply Hs in E'.
      destruct (String.length v =? 1)%nat; simpl; intros H; congruence.
    + rewrite andb_false_r. intros H. congruence.
  - destruct (dict_get single_letter_mapping (base_of p)) as [v'|] eqn:E'.
    + apply dict_get_In in E'. apply Hs in E'.
      destruct (String.length (base_of p) =? 1)%nat; simpl; intros H;
        congruence.
    + rewrite andb_false_r. auto.
Qed.

(** The translation is no key of the second table, when the keys of that
    table have one character and its values more. *)
Lemma translate_with_expanded (p : string) :
  (forall k v, In (k, v) single_letter_mapping -> String.length k = 1%nat) ->
  (forall k v, In (k, v) single_letter_mapping -> String.length v <> 1%nat) ->
  dict_in (translate_with mapping single_letter_mapping p) single_letter_mapping
  = false.
Proof.
  intros Hk Hv. unfold translate_with.
  set (text := dict_get_default mapping _ _).
  assert (Hout : forall s, String.length s <> 1%nat ->
                           dict_in s single_letter_mapping = false).
  { intros s Hs. unfold dict_in.
    destruct (dict_get single_letter_mapping s) eqn:E; [|reflexivity].
    apply dict_get_In, Hk in E. contradiction. }
  destruct (dict_in text single_letter_mapping) eqn:Hin.
  - assert (Hlen : String.length text = 1%nat).
    { unfold dict_in in Hin.
      destruct (dict_get single_letter_mapping text) eqn:E; [|discriminate].
      now apply dict_get_In, Hk in E. }
    rewrite Hlen. simpl. unfold dict_get_default.
    unfold dict_in in Hin.
    destruct (dict_get single_letter_mapping text) eqn:E; [|discriminate].
    apply Hout. now apply dict_get_In, Hv in E.
  - rewrite andb_false_r. exact Hin.
Qed.

(** The translation is in lower case, when the table values are. *)
Lemma translate_with_lower (p : string) :
  (forall k v, In (k, v) mapping -> lower v = v) ->
  (forall k v, In (k, v) single_letter_mapping -> lower v = v) ->
  lower (translate_with mapping single_letter_mapping p)
  = translate_with mapping single_letter_mapping p.
Proof.
  intros Hm Hs. unfold translate_with.
  change (lower (join_if (fun c => negb (isdigit c)) p)) with (base_of p).
  assert (Ht : lower (dict_get_default mapping (base_of p) (base_of p))
               = dict_get_default mapping (base_of p) (base_of p)).
  { unfold dict_get_default.
    destruct (dict_get mapping (base_of p)) eqn:E.
    - apply dict_get_In in E. eauto.
    - unfold base_of. apply lower_idem. }
  set (text := dict_get_default mapping (base_of p) (base_of p)) in *.
  destruct ((String.length text =? 1)%nat && dict_in text single_letter_mapping);
    [|assumption].
  unfold dict_get_default.
  destruct (dict_get single_letter_mapping text) eqn:E; [|assumption].
  apply dict_get_In in E. eauto.
Qed.

End TranslateWithTables.

Lemma base_of_without_digits (a d b : string) :
  all_digits d -> base_of (a ++ d ++ b) = base_of (a ++ b).
Proof.
  intros H. unfold base_of.
  now rewrite !join_if_app, (join_if_digits d H).
Qed.

Lemma base_of_stripped (p : string) :
  base_of (join_if (fun c => negb (isdigit c)) p) = base_of p.
Proof.
  unfold base_of.
  now rewrite (join_if_keeps_digit_free _ (join_if_digit_free p)).
Qed.

(** X1: digits anywhere in a symbol, and the case of the letters of a
    symbol of ASCII characters, make no difference to its translation:
    a run of digit characters can be taken out of the symbol wherever it
    stands, the symbol with all its digits removed is translated like the
    symbol, and so is an ASCII symbol put in lower case.  Both files. *)
Theorem translation_ignores_digits_and_case (a d b p : string) :
  (all_digits d ->
     Main.azure_phoneme_to_text (a ++ d ++ b)
     = Main.azure_phoneme_to_text (a ++ b)
     /\ Main2.azure_phoneme_to_text (a ++ d ++ b)
        = Main2.azure_phoneme_to_text (a ++ b))
  /\ Main.azure_phoneme_to_text (join_if (fun c => negb (isdigit c)) p)
     = Main.azure_phoneme_to_text p
  /\ Main2.azure_phoneme_to_text (join_if (fun c => negb (isdigit c)) p)
     = Main2.azure_phoneme_to_text p
  /\ (isascii p = true ->
        Main.azure_phoneme_to_text (lower p) = Main.azure_phoneme_to_text p
        /\ Main2.azure_phoneme_to_text (lower p)
           = Main2.azure_phoneme_to_text p)
  /\ Main.azure_phoneme_to_text "A1h" = "uh"
  /\ Main.azure_phoneme_to_text "0aH2" = "uh"
  /\ Main2.azure_phoneme_to_text "1S2h3" = "sh".
Proof.
  rewrite !main_translate, !main2_translate.
  split; [|split; [|split; [|split; [|repeat split]]]].
  - intros H. split; apply translate_with_same_base;
      now apply base_of_without_digits.
  - apply translate_with_same_base, base_of_stripped.
  - apply translate_with_same_base, base_of_stripped.
  - intros _. split; apply translate_with_same_base, base_of_lower.
Qed.

Lemma translation_ignores_digits_and_case_witness :
  (Main.azure_phoneme_to_text ("A" ++ "01" ++ "H")
   = Main.azure_phoneme_to_text ("A" ++ "H")
   /\ Main2.azure_phoneme_to_text ("A" ++ "01" ++ "H")
      = Main2.azure_phoneme_to_text ("A" ++ "H"))
  /\ (Main.azure_phoneme_to_text (lower "AH0")
      = Main.azure_phoneme_to_text "AH0"
      /\ Main2.azure_phoneme_to_text (lower "AH0")
         = Main2.azure_phoneme_to_text "AH0").
Proof.
  split.
  - apply (proj1 (translation_ignores_digits_and_case "A" "01" "H" "AH0")).
    reflexivity.
  - destruct (translation_ignores_digits_and_case "A" "01" "H" "AH0")
      as (_ & _ & _ & H & _).
    apply H. reflexivity.
Defined.

(** X2: the translation is the empty string exactly for the symbols made
    of digit characters only.  Both files. *)
Theorem empty_translation_iff (p : string) :
  (Main.azure_phoneme_to_text p = "" <-> all_digits p)
  /\ (Main2.azure_phoneme_to_text p = "" <-> all_digits p).
Proof.
  assert (Hne : forall d : dict string,
             forallb (fun e => negb (String.eqb (snd e) "")) d = true ->
             forall k v, In (k, v) d -> v <> "").
  { intros d Hd k v Hin.
    assert (Hb : forall e : string * string,
               negb (String.eqb (snd e) "") = true -> snd e <> "").
    { intros e He. apply negb_true_iff in He. now apply String.eqb_neq. }
    exact (table_forall (fun e => snd e <> "") _ d Hb Hd k v Hin). }
  assert (Hback : forall s, base_of s = "" -> all_digits s).
  { intros s Hs. apply join_if_empty_digits, lower_empty, Hs. }
  split; split.
  - rewrite main_translate. intros H. apply Hback.
    apply (translate_with_empty Main.mapping Main.single_letter_mapping);
      [apply Hne; reflexivity | apply Hne; reflexivity | exact H].
  - intros H. rewrite main_translate.
    rewrite (translate_with_same_base Main.mapping Main.single_letter_mapping
               p "" (base_of_digits p H)).
    reflexivity.
  - rewrite main2_translate. intros H. apply Hback.
    apply (translate_with_empty Main2.mapping Main2.single_letter_mapping);
      [apply Hne; reflexivity | apply Hne; reflexivity | exact H].
  - intros H. rewrite main2_translate.
    rewrite (translate_with_same_base Main2.mapping Main2.single_letter_mapping
               p "" (base_of_digits p H)).
    reflexivity.
Qed.

(** X3: a symbol whose base is a key of the standard table is translated
    to a text of two or three characters: no standard phoneme is spoken as
    a bare letter.  Both files. *)
Theorem standard_phoneme_length (p : string) :
  (dict_in (base_of p) Main.mapping = true ->
     (2 <= String.length (Main.azure_phoneme_to_text p) <= 3)%nat)
  /\ (dict_in (base_of p) Main2.mapping = true ->
        (2 <= String.length (Main2.azure_phoneme_to_text p) <= 3)%nat).
Proof.
  assert (Hkey : forall (f : string -> string) (d : dict string),
             forallb (fun e => (2 <=? String.length (f (fst e)))%nat
                               && (String.length (f (fst e)) <=? 3)%nat) d
             = true ->
             forall k, dict_in k d = true ->
                       (2 <= String.length (f k) <= 3)%nat).
  { intros f d Hd k Hk. unfold dict_in in Hk.
    destruct (dict_get d k) as [v|] eqn:E; [|discriminate].
    apply dict_get_In in E.
    assert (Hb : forall e : string * string,
               (2 <=? String.length (f (fst e)))%nat
               && (String.length (f (fst e)) <=? 3)%nat = true ->
               (2 <= String.length (f (fst e)) <= 3)%nat).
    { intros e He. apply andb_true_iff in He as [H1 H2].
      apply Nat.leb_le in H1, H2. split; assumption. }
    exact (table_forall
             (fun e => (2 <= String.length (f (fst e)) <= 3)%nat) _ d Hb Hd k v E). }
  split; intros H.
  - rewrite main_translate.
    rewrite <- (translate_with_same_base Main.mapping Main.single_letter_mapping
                  _ _ (base_of_idem p)).
    now apply (Hkey Main.azure_phoneme_to_text Main.mapping).
  - rewrite main2_translate.
    rewrite <- (translate_with_same_base Main2.mapping Main2.single_letter_mapping
                  _ _ (base_of_idem p)).
    now apply (Hkey Main2.azure_phoneme_to_text Main2.mapping).
Qed.

Lemma standard_phoneme_length_witness :
  (2 <= String.length (Main.azure_phoneme_to_text "HH1") <= 3)%nat
  /\ (2 <= String.length (Main2.azure_phoneme_to_text "AY0") <= 3)%nat.
Proof.
  split.
  - apply (proj1 (standard_phoneme_length "HH1")). reflexivity.
  - apply (proj2 (standard_phoneme_length "AY0")). reflexivity.
Defined.

(** X4: the translation is never a bare letter from a to z: it is no key
    of the single-letter table, whatever the symbol.  Both files. *)
Theorem translation_never_bare_letter (p : string) :
  dict_in (Main.azure_phoneme_to_text p) Main.single_letter_mapping = false
  /\ dict_in (Main2.azure_phoneme_to_text p) Main2.single_letter_mapping = false.
Proof.
  assert (Hv : forall d : dict string,
             forallb (fun e => negb (String.length (snd e) =? 1)%nat) d = true ->
             forall k v, In (k, v) d -> String.length v <> 1%nat).
  { intros d Hd k v Hin.
    assert (Hb : forall e : string * string,
               negb (String.length (snd e) =? 1)%nat = true ->
               String.length (snd e) <> 1%nat).
    { intros e He. apply negb_true_iff in He. now apply Nat.eqb_neq. }
    exact (table_forall (fun e => String.length (snd e) <> 1%nat) _ d Hb Hd k v Hin). }
  destruct single_letter_keys as [K1 K2].
  rewrite main_translate, main2_translate. split.
  - apply translate_with_expanded; [exact K1 | apply Hv; reflexivity].
  - apply translate_with_expanded; [exact K2 | apply Hv; reflexivity].
Qed.

Lemma values_lower (d : dict string) :
  forallb (fun e => String.eqb (lower (snd e)) (snd e)) d = true ->
  forall k v, In (k, v) d -> lower v = v.
Proof.
  intros Hd k v Hin.
  assert (Hb : forall e : string * string,
             String.eqb (lower (snd e)) (snd e) = true ->
             lower (snd e) = snd e).
  { intros e He. now apply String.eqb_eq. }
  exact (table_forall (fun e => lower (snd e) = snd e) _ d Hb Hd k v Hin).
Qed.

Lemma main_translate_lower (p : string) :
  lower (Main.azure_phoneme_to_text p) = Main.azure_phoneme_to_text p.
Proof.
  rewrite main_translate.
  apply translate_with_lower; apply values_lower; reflexivity.
Qed.

Lemma main2_translate_lower (p : string) :
  lower (Main2.azure_phoneme_to_text p) = Main2.azure_phoneme_to_text p.
Proof.
  rewrite main2_translate.
  apply translate_with_lower; apply values_lower; reflexivity.
Qed.

(** X5: the translation is in lower case: lower-casing it changes
    nothing, and so does translating it from an upper-case symbol.  Both
    files. *)
Theorem translation_lower_case (p : string) :
  lower (Main.azure_phoneme_to_text p) = Main.azure_phoneme_to_text p
  /\ lower (Main2.azure_phoneme_to_text p) = Main2.azure_phoneme_to_text p.
Proof. split; [apply main_translate_lower | apply main2_translate_lower]. Qed.

(** ** The score mapping built by the assessment *)

Lemma dict_get_app (d e : dict number) (k : string) :
  dict_get (d ++ e) k
  = match dict_get d k with Some v => Some v | None => dict_get e k end.
Proof.
  induction d as [|[k' v'] r IH]; simpl; [reflexivity|].
  destruct (String.eqb k k'); [reflexivity | exact IH].
Qed.

Lemma dict_get_set (d : dict number) (k k' : string) (v : number) :
  dict_get (dict_set d k v) k'
  = if String.eqb k' k then Some v else dict_get d k'.
Proof.
  induction d as [|[k0 v0] r IH]; simpl.
  - reflexivity.
  - destruct (String.eqb k k0) eqn:E; simpl.
    + apply String.eqb_eq in E. subst k0.
      destruct (String.eqb k' k); reflexivity.
    + destruct (String.eqb k' k0) eqn:E0.
      * apply String.eqb_eq in E0. subst k0.
        rewrite String.eqb_sym in E. now rewrite E.
      * exact IH.
Qed.

Lemma dict_get_key (d : dict number) (k : string) :
  In k (keys d) <-> exists v, dict_get d k = Some v.
Proof.
  induction d as [|[k' v'] r IH]; simpl.
  - split; [contradiction | intros [v H]; discriminate].
  - destruct (String.eqb k k') eqn:E.
    + apply String.eqb_eq in E. subst. split; eauto.
    + rewrite <- IH. apply String.eqb_neq in E. split.
      * intros [H|H]; [congruence | exact H].
      * auto.
Qed.

Lemma dict_get_wf_In (d : dict number) (k : string) (v : number) :
  dict_wf d -> (dict_get d k = Some v <-> In (k, v) d).
Proof.
  intros Hwf. split; [apply dict_get_In|].
  intros Hin.
  assert (Hk : In k (keys d)).
  { unfold keys. change k with (fst (k, v)). now apply in_map. }
  apply dict_get_key in Hk as [v' Hv'].
  rewrite Hv'. f_equal.
  apply (dict_wf_unique d k v' v Hwf); [now apply dict_get_In | exact Hin].
Qed.

Lemma collect_scores_flat (words : list (list (string * number))) :
  collect_scores words
  = fold_left (fun scores p => dict_set scores (fst p) (snd p)) (List.concat words) [].
Proof.
  unfold collect_scores. generalize (@nil (string * number)) as d.
  induction words as [|w r IH]; intros d; simpl; [reflexivity|].
  now rewrite fold_left_app, IH.
Qed.

(** The entry found for a key is the last one assigned. *)
Lemma collect_get (items : list (string * number)) (d : dict number) (k : string) :
  dict_get (fold_left (fun scores p => dict_set scores (fst p) (snd p)) items d) k
  = match dict_get (rev items) k with
    | Some v => Some v
    | None => dict_get d k
    end.
Proof.
  revert d. induction items as [|[k' v'] r IH]; intros d; simpl; [reflexivity|].
  rewrite IH, dict_get_app, dict_get_set. simpl.
  destruct (dict_get (rev r) k); [reflexivity|].
  destruct (String.eqb k k'); reflexivity.
Qed.

Lemma dict_set_keys_eq (d : dict number) (k : string) (v : number) :
  keys (dict_set d k v)
  = if existsb (String.eqb k) (keys d) then keys d else keys d ++ [k].
Proof.
  induction d as [|[k' v'] r IH]; simpl; [reflexivity|].
  destruct (String.eqb k k') eqn:E; simpl; [reflexivity|].
  unfold keys in *. rewrite IH.
  destruct (existsb (String.eqb k) (map fst r)); reflexivity.
Qed.

(** The keys come in the order in which they were first assigned. *)
Lemma collect_keys (items : list (string * number)) (d : dict number) (seen : list string) :
  (forall x, existsb (String.eqb x) seen = existsb (String.eqb x) (keys d)) ->
  keys (fold_left (fun scores p => dict_set scores (fst p) (snd p)) items d)
  = keys d ++ dedup_from seen (map fst items).
Proof.
  revert d seen. induction items as [|[k v] r IH]; intros d seen Hseen; simpl.
  - now rewrite app_nil_r.
  - rewrite Hseen.
    destruct (existsb (String.eqb k) (keys d)) eqn:E.
    + rewrite (IH (dict_set d k v) seen).
      * now rewrite dict_set_keys_eq, E.
      * intros x. now rewrite dict_set_keys_eq, E.
    + rewrite (IH (dict_set d k v) (k :: seen)).
      * rewrite dict_set_keys_eq, E, <- app_assoc. reflexivity.
      * intros x. rewrite dict_set_keys_eq, E. simpl.
        rewrite existsb_app, Hseen. simpl.
        rewrite orb_false_r. apply orb_comm.
Qed.

(** X6: the mapping returned by the assessment holds every phoneme of the
    result once, and no other key; it is empty exactly when the result
    holds no phoneme at all.  Both files build it by the same loop. *)
Theorem collected_scores_keys (words : list (list (string * number))) :
  dict_wf (collect_scores words)
  /\ (forall ph, In ph (keys (collect_scores words))
                 <-> In ph (map fst (List.concat words)))
  /\ (collect_scores words = [] <-> List.concat words = []).
Proof.
  assert (Hkeys : forall ph, In ph (keys (collect_scores words))
                             <-> In ph (map fst (List.concat words))).
  { intros ph. rewrite dict_get_key, collect_scores_flat.
    split.
    - intros [v Hv]. rewrite collect_get in Hv. simpl in Hv.
      destruct (dict_get (rev (List.concat words)) ph) as [v'|] eqn:E;
        [|discriminate].
      apply dict_get_In, in_rev in E.
      change ph with (fst (ph, v')). now apply in_map.
    - intros Hin. apply in_map_iff in Hin as [[k v] [Hk Hin]].
      simpl in Hk. subst k. rewrite collect_get.
      assert (Hr : In ph (keys (rev (List.concat words)))).
      { unfold keys. change ph with (fst (ph, v)).
        apply in_map. now apply in_rev in Hin. }
      apply dict_get_key in Hr as [v' Hv']. rewrite Hv'. eauto. }
  split; [apply collect_scores_wf|]. split; [exact Hkeys|].
  split; intros H.
  - destruct (List.concat words) as [|[k v] r] eqn:E; [reflexivity|].
    exfalso. assert (Hin : In k (keys (collect_scores words))).
    { apply Hkeys. try rewrite E. now left. }
    now rewrite H in Hin.
  - rewrite collect_scores_flat, H. reflexivity.
Qed.

(** X7: when a phoneme occurs several times in the result, the mapping
    keeps the score of its last occurrence: looking a phoneme up in the
    mapping is looking it up from the end of the result.  Both files. *)
Theorem collected_scores_last_wins (words : list (list (string * number)))
        (ph : string) :
  dict_get (collect_scores words) ph = dict_get (rev (List.concat words)) ph.
Proof.
  rewrite collect_scores_flat, collect_get. simpl.
  now destruct (dict_get (rev (List.concat words)) ph).
Qed.

(** X8: the keys of the mapping are the phonemes of the result in the
    order of their first occurrence.  Both files. *)
Theorem collected_scores_order (words : list (list (string * number))) :
  keys (collect_scores words) = first_occurrences (map fst (List.concat words)).
Proof.
  rewrite collect_scores_flat.
  apply (collect_keys (List.concat words) [] []). reflexivity.
Qed.

Lemma low_fold_wf (t : Z) (d acc : dict number) :
  dict_wf acc -> dict_wf (fold_left (Main.keep_low t) d acc).
Proof.
  revert acc. induction d as [|p r IH]; intros acc Hacc; simpl; [exact Hacc|].
  apply IH. unfold Main.keep_low.
  destruct (num_lt (snd p) (inject_Z t)); [now apply dict_set_wf | exact Hacc].
Qed.

(** The low-scoring keys of a dictionary, by lookup. *)
Lemma low_keys_by_lookup (t : Z) (d : dict number) :
  dict_wf d ->
  map fst (filter (below t) d)
  = filter (fun ph => match dict_get d ph with
                      | Some sc => num_lt sc (inject_Z t)
                      | None => false
                      end)
           (keys d).
Proof.
  unfold dict_wf, keys.
  induction d as [|[k v] r IH]; intros Hnd; [reflexivity|].
  inversion Hnd as [|? ? Hnot Hr]; subst.
  cbn [map filter fst dict_get]. rewrite String.eqb_refl.
  unfold below at 1. cbn [snd].
  assert (Hext : filter (fun ph => match (if String.eqb ph k
                                          then Some v
                                          else dict_get r ph) with
                                   | Some sc => num_lt sc (inject_Z t)
                                   | None => false
                                   end) (map fst r)
                 = filter (fun ph => match dict_get r ph with
                                     | Some sc => num_lt sc (inject_Z t)
                                     | None => false
                                     end) (map fst r)).
  { apply filter_ext_in. intros ph Hph.
    destruct (String.eqb ph k) eqn:E; [|reflexivity].
    apply String.eqb_eq in E. subst. contradiction. }
  rewrite Hext, <- (IH Hr).
  destruct (num_lt v (inject_Z t)); reflexivity.
Qed.

Lemma collect_scores_get (words : list (list (string * number))) (ph : string) :
  dict_get (collect_scores words) ph = dict_get (rev (List.concat words)) ph.
Proof.
  rewrite collect_scores_flat, collect_get. cbn [dict_get].
  now destruct (dict_get (rev (List.concat words)) ph).
Qed.

Lemma collected_low_keys (t : Z) (words : list (list (string * number))) :
  map fst (filter (below t) (collect_scores words))
  = low_by_last t (List.concat words).
Proof.
  rewrite (low_keys_by_lookup t _ (collect_scores_wf words)).
  unfold low_by_last.
  replace (keys (collect_scores words))
    with (first_occurrences (map fst (List.concat words))).
  - apply filter_ext. intros ph.
    rewrite collect_scores_flat, collect_get. cbn [dict_get].
    now destruct (dict_get (rev (List.concat words)) ph).
  - symmetry. rewrite collect_scores_flat.
    apply (collect_keys (List.concat words) [] []). reflexivity.
Qed.

(** X9: what the two files drill is decided by the last score the
    recognition result gives for each phoneme; earlier scores of a repeated
    phoneme play no part.  The keys of [low_scores] in [main.py], the
    drills of its round and the drills of [give_phoneme_feedback] in
    [main2.py] are those of the phonemes whose last score is below the
    threshold, each once, in the order of their first occurrence. *)
Theorem low_by_last_score (t : Z) (w : string)
        (words : list (list (string * number))) :
  keys (Main.low_scores_of t (collect_scores words))
  = low_by_last t (List.concat words)
  /\ NoDup (low_by_last t (List.concat words))
  /\ Main2.give_phoneme_feedback t w (collect_scores words)
     = match low_by_last t (List.concat words) with
       | [] => [Speak (Main2.prompt "all_correct")]
       | ph :: more => flat_map Main2.drill (ph :: more)
       end
  /\ (collect_scores words <> [] ->
      Main.round t w (Some (collect_scores words))
      = (Print ScoresHeading
           :: map (fun p => Print (ScoreLine (fst p) (snd p)))
                (collect_scores words)
           ++ match low_by_last t (List.concat words) with
              | [] => [Speak (Main.prompt "all_correct")]
              | ph :: more =>
                  flat_map Main.drill (ph :: more)
                  ++ [Speak (format (Main.prompt "whole_word") w); Sleep 1]
              end,
         match low_by_last t (List.concat words) with
         | [] => true
         | _ :: _ => false
         end))
  /\ (forall ph,
        In ph (low_by_last t (List.concat words))
        <-> exists sc, dict_get (rev (List.concat words)) ph = Some sc
                       /\ num_lt sc (inject_Z t) = true).
Proof.
  assert (Hwf := collect_scores_wf words).
  assert (Hk := collected_low_keys t words).
  assert (Hlow : keys (Main.low_scores_of t (collect_scores words))
                 = low_by_last t (List.concat words)).
  { now rewrite (low_scores_of_filter t _ Hwf). }
  split; [exact Hlow|]. split; [|split; [|split]].
  - rewrite <- Hlow. apply (low_fold_wf t (collect_scores words) []).
    constructor.
  - rewrite give_phoneme_feedback_run, existsb_filter, <- Hk.
    rewrite <- (flat_map_keys Main2.drill). unfold keys.
    destruct (filter (below t) (collect_scores words)); cbn [map];
      [reflexivity | now rewrite app_nil_r].
  - intros Hne. rewrite (main_round_run t w _ Hwf Hne), existsb_filter, <- Hk.
    rewrite <- (flat_map_keys Main.drill). unfold keys.
    destruct (filter (below t) (collect_scores words)); reflexivity.
  - intros ph. rewrite <- Hk. split.
    + intros H. apply in_map_iff in H as [[k v] [Hkv Hf]].
      simpl in Hkv. subst k. apply filter_In in Hf as [Hin Hb].
      exists v. split; [|exact Hb].
      rewrite <- collect_scores_get. now apply dict_get_wf_In.
    + intros (sc & Hsc & Hlt). change ph with (fst (ph, sc)).
      apply in_map, filter_In. split; [|exact Hlt].
      apply dict_get_In. now rewrite collect_scores_get.
Qed.

Lemma low_by_last_score_witness :
  Main.round 80 "hello"
    (Some (collect_scores [[("hh", 60 # 1); ("eh", 95 # 1)]; [("hh", 85 # 1)];
                           [("l", 40 # 1)]]))
  = (Print ScoresHeading
       :: map (fun p => Print (ScoreLine (fst p) (snd p)))
            (collect_scores [[("hh", 60 # 1); ("eh", 95 # 1)]; [("hh", 85 # 1)];
                             [("l", 40 # 1)]])
       ++ flat_map Main.drill ["l"]
       ++ [Speak (format (Main.prompt "whole_word") "hello"); Sleep 1],
     false).
Proof.
  destruct (low_by_last_score 80 "hello"
              [[("hh", 60 # 1); ("eh", 95 # 1)]; [("hh", 85 # 1)];
               [("l", 40 # 1)]])
    as (_ & _ & _ & H & _).
  apply H. discriminate.
Defined.

(** ** The loops over several utterances *)

Lemma none_below_forallb (t : Z) (d : dict number) :
  forallb (fun p => negb (below t p)) d = true <-> filter (below t) d = [].
Proof.
  induction d as [|p r IH]; simpl; [tauto|].
  destruct (below t p); simpl; [split; discriminate | exact IH].
Qed.

(** [break] is reached exactly on an utterance that passes. *)
Lemma main_round_passes (t : Z) (w : string) (r : recognition) :
  snd (Main.round t w (snd (Main.assess_return r))) = passes t r.
Proof.
  destruct r as [|words]; [reflexivity|].
  unfold passes, usable. cbn [Main.assess_return snd].
  destruct (collect_scores words) as [|p d] eqn:E; [reflexivity|].
  rewrite main_round_scores. cbn [andb].
  destruct (Main.low_scores_of t (p :: d)) eqn:El; cbn [snd]; symmetry.
  - apply none_below_forallb. now apply low_scores_of_nil.
  - apply not_true_is_false. intros H.
    apply none_below_forallb, low_scores_of_nil in H. congruence.
Qed.

Lemma forallb_values {A} (f : A -> bool) (d : dict A) :
  forallb f (values d) = forallb (fun p => f (snd p)) d.
Proof.
  unfold values. induction d as [|p r IH]; simpl; [reflexivity | now rewrite IH].
Qed.

(** In [main2.py] [break] is reached exactly on an utterance in which
    every score is at or above the threshold. *)
Lemma main2_round_reaches (t : Z) (w : string) (r : recognition) :
  snd (Main2.round t w (snd (Main2.assess_return r))) = reaches t r.
Proof.
  destruct r as [|words]; [reflexivity|].
  unfold reaches, usable. cbn [Main2.assess_return snd].
  destruct (collect_scores words) as [|p d] eqn:E; [reflexivity|].
  rewrite main2_round_scores. cbn [andb snd].
  unfold Main2.all_correct.
  exact (forallb_values (fun score : number => num_ge score (inject_Z t))
           (p :: d)).
Qed.

(** An utterance that leaves the loop of [main2.py] leaves that of
    [main.py]; without a NaN score the two tests agree. *)
Lemma reaches_passes (t : Z) (r : recognition) :
  reaches t r = true -> passes t r = true.
Proof.
  destruct r as [|words]; [discriminate|].
  unfold reaches, passes. destruct (usable (Recognized words)); [|discriminate].
  cbn [andb]. rewrite !forallb_forall. intros H p Hp.
  apply negb_true_iff. unfold below. apply num_ge_no_lt. now apply H.
Qed.

Lemma reaches_without_nan (t : Z) (r : recognition) :
  without_nan r = true -> reaches t r = passes t r.
Proof.
  destruct r as [|words]; [reflexivity|].
  unfold reaches, passes, without_nan, nan_free.
  destruct (usable (Recognized words)); [|reflexivity]. cbn [andb].
  induction (collect_scores words) as [|p d IH]; [reflexivity|].
  cbn [forallb]. intros H. apply andb_true_iff in H as [Hp Hd].
  apply negb_true_iff in Hp.
  rewrite (IH Hd). unfold below at 1.
  now rewrite (num_ge_not_lt_number _ _ Hp).
Qed.

Lemma practice_word_at_passes (t : Z) (w : string) (r : recognition)
      (rest : list recognition) :
  Main.practice_word_at t w (r :: rest)
  = if passes t r
    then (Main.assess_call w ++ fst (Main.assess_return r)
            ++ fst (Main.round t w (snd (Main.assess_return r))),
          Accepted)
    else (Main.assess_call w ++ fst (Main.assess_return r)
            ++ fst (Main.round t w (snd (Main.assess_return r)))
            ++ fst (Main.practice_word_at t w rest),
          snd (Main.practice_word_at t w rest)).
Proof. now rewrite practice_word_at_cons, main_round_passes. Qed.

Lemma main_loop_passes (t : Z) (w : string) (r : recognition)
      (rest : list recognition) :
  Main2.main_loop t w (r :: rest)
  = if reaches t r
    then (Main2.assess_call w ++ fst (Main2.assess_return r)
            ++ fst (Main2.round t w (snd (Main2.assess_return r))),
          Accepted)
    else (Main2.assess_call w ++ fst (Main2.assess_return r)
            ++ fst (Main2.round t w (snd (Main2.assess_return r)))
            ++ fst (Main2.main_loop t w rest),
          snd (Main2.main_loop t w rest)).
Proof. now rewrite main_loop_cons, main2_round_reaches. Qed.

(** The bodies of the loops never call the recogniser themselves. *)
Lemma main_drills_no_recognition (ks : list string) :
  recognitions (flat_map Main.drill ks) = [].
Proof. induction ks as [|k r IH]; simpl; [reflexivity | exact IH]. Qed.

Lemma main_round_no_recognition (t : Z) (w : string) (r : recognition) :
  recognitions (fst (Main.assess_return r)
                  ++ fst (Main.round t w (snd (Main.assess_return r)))) = [].
Proof.
  destruct r as [|words]; [reflexivity|].
  cbn [Main.assess_return fst snd app].
  destruct (collect_scores words) as [|p d]; [reflexivity|].
  rewrite main_round_scores.
  destruct (report_silent (p :: d)) as [_ Hrec].
  destruct (Main.low_scores_of t (p :: d)); cbn [fst recognitions];
    rewrite !recognitions_app, Hrec; [reflexivity|].
  now rewrite main_drills_no_recognition.
Qed.

Lemma main2_feedback_no_recognition (t : Z) (w : string) (d : dict number) :
  recognitions (Main2.give_phoneme_feedback t w d) = [].
Proof.
  unfold Main2.give_phoneme_feedback. rewrite feedback_fold. cbn [fst snd app].
  assert (H : recognitions
                (flat_map (fun p => Main2.drill (fst p)) (filter (below t) d))
              = []).
  { induction (filter (below t) d) as [|p r IH]; simpl; [reflexivity | exact IH]. }
  destruct (_ =? 0)%Z; [rewrite recognitions_app|]; now rewrite H.
Qed.

Lemma main2_round_no_recognition (t : Z) (w : string) (r : recognition) :
  recognitions (fst (Main2.assess_return r)
                  ++ fst (Main2.round t w (snd (Main2.assess_return r)))) = [].
Proof.
  destruct r as [|words]; [reflexivity|].
  cbn [Main2.assess_return fst snd app].
  destruct (collect_scores words) as [|p d]; [reflexivity|].
  rewrite main2_round_scores. cbn [fst recognitions].
  destruct (report_silent (p :: d)) as [_ Hrec].
  now rewrite recognitions_app, Hrec, main2_feedback_no_recognition.
Qed.

Lemma attempts_by_bound (pass : recognition -> bool) (inputs : list recognition) :
  (attempts_by pass inputs <= S (List.length inputs))%nat.
Proof.
  induction inputs as [|r rest IH]; simpl; [lia|].
  destruct (pass r); lia.
Qed.

Lemma attempts_by_ext (pass pass' : recognition -> bool)
      (inputs : list recognition) :
  (forall r, In r inputs -> pass r = pass' r) ->
  attempts_by pass inputs = attempts_by pass' inputs
  /\ existsb pass inputs = existsb pass' inputs.
Proof.
  induction inputs as [|r rest IH]; intros H; [split; reflexivity|].
  cbn [attempts_by existsb]. rewrite (H r (or_introl eq_refl)).
  destruct IH as [IH1 IH2]; [intros x Hx; apply H; now right|].
  rewrite IH1, IH2. split; reflexivity.
Qed.

(** X10: a run of [practice_word] of [main.py] ends accepted exactly
    when one of the utterances is usable (speech recognised, at least one
    phoneme) and holds no score below the threshold; a run of the loop of
    [main] of [main2.py] ends accepted exactly when one of the utterances
    is usable and every score in it is at or above the threshold.  The
    recogniser is called once for each utterance up to the first such one,
    once more when there is none, and always on the target word.  When no
    score is NaN the two loops decide alike and listen equally often; an
    utterance with a NaN score and no score below the threshold is
    accepted by [main.py] and not by [main2.py]. *)
Theorem accepted_iff_some_pass (t : Z) (w : string) (inputs : list recognition) :
  (snd (Main.practice_word_at t w inputs) = Accepted
   <-> existsb (passes t) inputs = true)
  /\ (snd (Main2.main_loop t w inputs) = Accepted
      <-> existsb (reaches t) inputs = true)
  /\ recognitions (fst (Main.practice_word_at t w inputs))
     = repeat w (attempts_by (passes t) inputs)
  /\ recognitions (fst (Main2.main_loop t w inputs))
     = repeat w (attempts_by (reaches t) inputs)
  /\ (attempts_by (passes t) inputs <= S (List.length inputs))%nat
  /\ (attempts_by (reaches t) inputs <= S (List.length inputs))%nat
  /\ (snd (Main2.main_loop t w inputs) = Accepted ->
      snd (Main.practice_word_at t w inputs) = Accepted)
  /\ (forallb without_nan inputs = true ->
      snd (Main.practice_word_at t w inputs) = snd (Main2.main_loop t w inputs)
      /\ recognitions (fst (Main.practice_word_at t w inputs))
         = recognitions (fst (Main2.main_loop t w inputs)))
  /\ snd (Main.practice_word_at 80 w [Recognized [[("ae", NaN)]]]) = Accepted
  /\ snd (Main2.main_loop 80 w [Recognized [[("ae", NaN)]]]) = AwaitingSpeech.
Proof.
  assert (HA : (snd (Main.practice_word_at t w inputs) = Accepted
                <-> existsb (passes t) inputs = true)
               /\ recognitions (fst (Main.practice_word_at t w inputs))
                  = repeat w (attempts_by (passes t) inputs)).
  { induction inputs as [|r rest [IH1 IH2]].
    - split; [split; discriminate | reflexivity].
    - rewrite practice_word_at_passes. cbn [existsb attempts_by].
      destruct (passes t r) eqn:E; cbn [fst snd orb].
      + split; [tauto|].
        rewrite recognitions_app, main_round_no_recognition. reflexivity.
      + split; [exact IH1|].
        rewrite (app_assoc (fst (Main.assess_return r))).
        rewrite recognitions_app, (recognitions_app (_ ++ _)).
        now rewrite main_round_no_recognition, IH2. }
  assert (HB : (snd (Main2.main_loop t w inputs) = Accepted
                <-> existsb (reaches t) inputs = true)
               /\ recognitions (fst (Main2.main_loop t w inputs))
                  = repeat w (attempts_by (reaches t) inputs)).
  { clear HA. induction inputs as [|r rest [IH1 IH2]].
    - split; [split; discriminate | reflexivity].
    - rewrite main_loop_passes. cbn [existsb attempts_by].
      destruct (reaches t r) eqn:E; cbn [fst snd orb].
      + split; [tauto|].
        rewrite recognitions_app, main2_round_no_recognition. reflexivity.
      + split; [exact IH1|].
        rewrite (app_assoc (fst (Main2.assess_return r))).
        rewrite recognitions_app, (recognitions_app (_ ++ _)).
        now rewrite main2_round_no_recognition, IH2. }
  destruct HA as [HA1 HA2], HB as [HB1 HB2].
  split; [exact HA1|]. split; [exact HB1|].
  split; [exact HA2|]. split; [exact HB2|].
  split; [apply attempts_by_bound|]. split; [apply attempts_by_bound|].
  split; [|split; [|split; reflexivity]].
  - rewrite HA1, HB1, !existsb_exists.
    intros (r & Hr & Hp). exists r. split; [exact Hr|].
    now apply reaches_passes.
  - intros Hnan. rewrite forallb_forall in Hnan.
    destruct (attempts_by_ext (reaches t) (passes t) inputs) as [E1 E2].
    { intros r Hr. apply reaches_without_nan. now apply Hnan. }
    rewrite HA2, HB2, E1. split; [|reflexivity].
    destruct (snd (Main.practice_word_at t w inputs)) eqn:EA,
      (snd (Main2.main_loop t w inputs)) eqn:EB; try reflexivity.
    + assert (H : existsb (passes t) inputs = true) by now apply HA1.
      rewrite <- E2 in H. apply HB1 in H. discriminate H.
    + assert (H : existsb (reaches t) inputs = true) by now apply HB1.
      rewrite E2 in H. apply HA1 in H. discriminate H.
Qed.

Lemma accepted_iff_some_pass_witness :
  snd (Main.practice_word_at 80 "hello"
         [NoSpeech; Recognized [[("hh", 70 # 1)]]; Recognized [[("hh", 85 # 1)]]])
  = snd (Main2.main_loop 80 "hello"
           [NoSpeech; Recognized [[("hh", 70 # 1)]]; Recognized [[("hh", 85 # 1)]]])
  /\ recognitions
       (fst (Main.practice_word_at 80 "hello"
               [NoSpeech; Recognized [[("hh", 70 # 1)]];
                Recognized [[("hh", 85 # 1)]]]))
     = recognitions
         (fst (Main2.main_loop 80 "hello"
                 [NoSpeech; Recognized [[("hh", 70 # 1)]];
                  Recognized [[("hh", 85 # 1)]]])).
Proof.
  destruct (accepted_iff_some_pass 80 "hello"
              [NoSpeech; Recognized [[("hh", 70 # 1)]];
               Recognized [[("hh", 85 # 1)]]])
    as (_ & _ & _ & _ & _ & _ & _ & H & _).
  apply H. reflexivity.
Defined.

(** X11: acceptance is final: once a run over some utterances has ended
    accepted, utterances that follow change nothing, neither the trace nor
    the outcome.  Both files. *)
Theorem accepted_is_final (t : Z) (w : string) (inputs more : list recognition) :
  (snd (Main.practice_word_at t w inputs) = Accepted ->
     Main.practice_word_at t w (inputs ++ more)
     = Main.practice_word_at t w inputs)
  /\ (snd (Main2.main_loop t w inputs) = Accepted ->
        Main2.main_loop t w (inputs ++ more) = Main2.main_loop t w inputs).
Proof.
  split.
  - induction inputs as [|r rest IH]; [discriminate|].
    rewrite <- app_comm_cons, !practice_word_at_passes.
    destruct (passes t r); [reflexivity|]. cbn [snd].
    intros H. now rewrite (IH H).
  - induction inputs as [|r rest IH]; [discriminate|].
    rewrite <- app_comm_cons, !main_loop_passes.
    destruct (reaches t r); [reflexivity|]. cbn [snd].
    intros H. now rewrite (IH H).
Qed.

Lemma accepted_is_final_witness :
  Main.practice_word_at 80 "hello"
    ([NoSpeech; Recognized [[("hh", 91 # 1)]]] ++ [NoSpeech; NoSpeech])
  = Main.practice_word_at 80 "hello" [NoSpeech; Recognized [[("hh", 91 # 1)]]]
  /\ Main2.main_loop 80 "apple"
       ([NoSpeech; Recognized [[("ae", 91 # 1)]]] ++ [NoSpeech; NoSpeech])
     = Main2.main_loop 80 "apple" [NoSpeech; Recognized [[("ae", 91 # 1)]]].
Proof.
  split.
  - apply (proj1 (accepted_is_final 80 "hello"
                    [NoSpeech; Recognized [[("hh", 91 # 1)]]]
                    [NoSpeech; NoSpeech])).
    reflexivity.
  - apply (proj2 (accepted_is_final 80 "apple"
                    [NoSpeech; Recognized [[("ae", 91 # 1)]]]
                    [NoSpeech; NoSpeech])).
    reflexivity.
Defined.

(** X12: a run that is not accepted waits inside the assessment, and goes
    on from there: its trace ends with the call of the assessment, and with
    more utterances the run is that trace up to the pending call followed
    by the run over the new utterances.  Both files. *)
Theorem pending_run_continues (t : Z) (w : string) (inputs : list recognition) :
  (snd (Main.practice_word_at t w inputs) = AwaitingSpeech ->
     exists body,
       fst (Main.practice_word_at t w inputs) = body ++ Main.assess_call w
       /\ forall more,
            Main.practice_word_at t w (inputs ++ more)
            = (body ++ fst (Main.practice_word_at t w more),
               snd (Main.practice_word_at t w more)))
  /\ (snd (Main2.main_loop t w inputs) = AwaitingSpeech ->
        exists body,
          fst (Main2.main_loop t w inputs) = body ++ Main2.assess_call w
          /\ forall more,
               Main2.main_loop t w (inputs ++ more)
               = (body ++ fst (Main2.main_loop t w more),
                  snd (Main2.main_loop t w more))).
Proof.
  split.
  - induction inputs as [|r rest IH].
    + intros _. exists []. split; [reflexivity|].
      intros more. simpl. now destruct (Main.practice_word_at t w more).
    + rewrite practice_word_at_passes.
      destruct (passes t r) eqn:E; [discriminate|]. cbn [fst snd].
      intros H. destruct (IH H) as (body & Hb & Hmore).
      exists (Main.assess_call w ++ fst (Main.assess_return r)
                ++ fst (Main.round t w (snd (Main.assess_return r))) ++ body).
      split.
      * rewrite Hb. now rewrite <- !app_assoc.
      * intros more.
        rewrite <- app_comm_cons, practice_word_at_passes, E, Hmore.
        cbn [fst snd]. now rewrite <- !app_assoc.
  - induction inputs as [|r rest IH].
    + intros _. exists []. split; [reflexivity|].
      intros more. simpl. now destruct (Main2.main_loop t w more).
    + rewrite main_loop_passes.
      destruct (reaches t r) eqn:E; [discriminate|]. cbn [fst snd].
      intros H. destruct (IH H) as (body & Hb & Hmore).
      exists (Main2.assess_call w ++ fst (Main2.assess_return r)
                ++ fst (Main2.round t w (snd (Main2.assess_return r))) ++ body).
      split.
      * rewrite Hb. now rewrite <- !app_assoc.
      * intros more.
        rewrite <- app_comm_cons, main_loop_passes, E, Hmore.
        cbn [fst snd]. now rewrite <- !app_assoc.
Qed.

Lemma pending_run_continues_witness :
  (exists body,
     fst (Main.practice_word_at 80 "hello" [NoSpeech; Recognized [[("hh", 12 # 1)]]])
     = body ++ Main.assess_call "hello"
     /\ forall more,
          Main.practice_word_at 80 "hello"
            ([NoSpeech; Recognized [[("hh", 12 # 1)]]] ++ more)
          = (body ++ fst (Main.practice_word_at 80 "hello" more),
             snd (Main.practice_word_at 80 "hello" more)))
  /\ (exists body,
        fst (Main2.main_loop 80 "apple" [Recognized [[("ae", 12 # 1)]]])
        = body ++ Main2.assess_call "apple"
        /\ forall more,
             Main2.main_loop 80 "apple" ([Recognized [[("ae", 12 # 1)]]] ++ more)
             = (body ++ fst (Main2.main_loop 80 "apple" more),
                snd (Main2.main_loop 80 "apple" more))).
Proof.
  split.
  - apply (proj1 (pending_run_continues 80 "hello"
                    [NoSpeech; Recognized [[("hh", 12 # 1)]]])).
    reflexivity.
  - apply (proj2 (pending_run_continues 80 "apple"
                    [Recognized [[("ae", 12 # 1)]]])).
    reflexivity.
Defined.

(** X13: the retry on an unusable utterance has no limit and gives no
    feedback: over utterances of which none is usable (no speech, or no
    phoneme), however many, the run stays pending, the recogniser was
    called once more than there were utterances, and nothing was spoken
    apart from the announcement [main2.py] makes before each call. *)
Theorem unusable_utterances_retry (t : Z) (w : string) (inputs : list recognition) :
  forallb (fun r => negb (usable r)) inputs = true ->
  snd (Main.practice_word_at t w inputs) = AwaitingSpeech
  /\ spoken (fst (Main.practice_word_at t w inputs)) = []
  /\ recognitions (fst (Main.practice_word_at t w inputs))
     = repeat w (S (List.length inputs))
  /\ snd (Main2.main_loop t w inputs) = AwaitingSpeech
  /\ spoken (fst (Main2.main_loop t w inputs))
     = repeat ("Please say the word " ++ w ++ " now.")%string
         (S (List.length inputs))
  /\ recognitions (fst (Main2.main_loop t w inputs))
     = repeat w (S (List.length inputs)).
Proof.
  induction inputs as [|r rest IH]; [intros _; repeat split|].
  cbn [forallb]. intros H. apply andb_true_iff in H as [Hr Hrest].
  apply negb_true_iff in Hr.
  destruct (IH Hrest) as (A1 & A2 & A3 & B1 & B2 & B3). clear IH.
  assert (HA : Main.round t w (snd (Main.assess_return r))
               = ([Print RetryNotice], false)
               /\ spoken (fst (Main.assess_return r)) = []
               /\ recognitions (fst (Main.assess_return r)) = []).
  { destruct r as [|words]; [repeat split|].
    unfold usable in Hr. cbn [Main.assess_return fst snd].
    destruct (collect_scores words); [repeat split | discriminate]. }
  assert (HB : Main2.round t w (snd (Main2.assess_return r))
               = ([Print RetryNotice], false)
               /\ spoken (fst (Main2.assess_return r)) = []
               /\ recognitions (fst (Main2.assess_return r)) = []).
  { destruct r as [|words]; [repeat split|].
    unfold usable in Hr. cbn [Main2.assess_return fst snd].
    destruct (collect_scores words); [repeat split | discriminate]. }
  destruct HA as (HA1 & HA2 & HA3), HB as (HB1 & HB2 & HB3).
  rewrite practice_word_at_cons, main_loop_cons, HA1, HB1.
  cbn [fst snd List.length].
  rewrite !spoken_app, !recognitions_app, HA2, HA3, HB2, HB3, A2, A3, B2, B3.
  repeat split; assumption.
Qed.

Lemma unusable_utterances_retry_witness :
  snd (Main.practice_word_at 80 "hello" [NoSpeech; Recognized [[]]; NoSpeech])
  = AwaitingSpeech
  /\ spoken (fst (Main.practice_word_at 80 "hello"
                    [NoSpeech; Recognized [[]]; NoSpeech])) = [].
Proof.
  destruct (unusable_utterances_retry 80 "hello"
              [NoSpeech; Recognized [[]]; NoSpeech] eq_refl)
    as (H1 & H2 & _).
  split; assumption.
Defined.

(** ** What is spoken *)

Lemma not_spoken_count (l : list string) (x : string) :
  ~ In x l -> count_occ string_dec l x = 0%nat.
Proof. apply count_occ_not_In. Qed.

Lemma main_drills_not_all_correct (ks : list string) :
  ~ In (Main.prompt "all_correct") (spoken (flat_map Main.drill ks)).
Proof.
  induction ks as [|k r IH]; simpl; [tauto|].
  intros [H|[H|[H|H]]]; try discriminate H. now apply IH.
Qed.

Lemma main2_drills_not_all_correct (l : dict number) :
  ~ In (Main2.prompt "all_correct")
      (spoken (flat_map (fun p => Main2.drill (fst p)) l)).
Proof.
  induction l as [|p r IH]; simpl; [tauto|].
  intros [H|[H|[H|H]]]; try discriminate H; [|now apply IH].
  assert (Hl := main2_translate_lower (fst p)).
  rewrite H in Hl. discriminate Hl.
Qed.

(** What a pass speaks, in [main.py]: the all-correct prompt alone when
    the utterance passes, and otherwise no all-correct prompt. *)
Lemma main_round_spoken (t : Z) (w : string) (r : recognition) :
  if passes t r
  then spoken (fst (Main.assess_return r)
                 ++ fst (Main.round t w (snd (Main.assess_return r))))
       = [Main.prompt "all_correct"]
  else ~ In (Main.prompt "all_correct")
         (spoken (fst (Main.assess_return r)
                    ++ fst (Main.round t w (snd (Main.assess_return r))))).
Proof.
  assert (Hp := main_round_passes t w r).
  destruct r as [|words]; [simpl; tauto|].
  cbn [Main.assess_return fst snd app] in *.
  destruct (collect_scores words) as [|p d] eqn:E.
  - rewrite <- Hp. simpl. tauto.
  - rewrite main_round_scores in *.
    destruct (report_silent (p :: d)) as [Hsp _].
    destruct (Main.low_scores_of t (p :: d)) as [|q low];
      cbn [snd] in Hp; rewrite <- Hp; cbn [fst spoken].
    + now rewrite spoken_app, Hsp.
    + rewrite !spoken_app, Hsp. cbn [app]. intros Hin.
      apply in_app_or in Hin as [Hin|Hin].
      * now apply main_drills_not_all_correct in Hin.
      * simpl in Hin. destruct Hin as [Hin|[]]. discriminate Hin.
Qed.

Lemma main2_round_spoken (t : Z) (w : string) (r : recognition) :
  if passes t r
  then spoken (fst (Main2.assess_return r)
                 ++ fst (Main2.round t w (snd (Main2.assess_return r))))
       = [Main2.prompt "all_correct"]
  else ~ In (Main2.prompt "all_correct")
         (spoken (fst (Main2.assess_return r)
                    ++ fst (Main2.round t w (snd (Main2.assess_return r))))).
Proof.
  destruct r as [|words]; [simpl; tauto|].
  unfold passes, usable. cbn [Main2.assess_return fst snd app].
  destruct (collect_scores words) as [|p d] eqn:E; [simpl; tauto|].
  rewrite main2_round_scores. cbn [fst snd andb].
  destruct (report_silent (p :: d)) as [Hsp _].
  cbn [spoken]. rewrite spoken_app, Hsp. cbn [app].
  destruct (forallb _ (p :: d)) eqn:Ef.
  - apply none_below_forallb in Ef.
    now rewrite (give_phoneme_feedback_none_low t w _ Ef).
  - rewrite give_phoneme_feedback_run, existsb_filter.
    destruct (filter (below t) (p :: d)) as [|q low] eqn:Eq.
    + apply none_below_forallb in Eq. congruence.
    + rewrite app_nil_r. apply main2_drills_not_all_correct.
Qed.

(** A pass of [main2.py] that leaves the loop ends with the all-correct
    prompt. *)
Lemma main2_round_ends (t : Z) (w : string) (r : recognition) :
  reaches t r = true ->
  exists body,
    fst (Main2.assess_return r)
      ++ fst (Main2.round t w (snd (Main2.assess_return r)))
    = body ++ [Speak (Main2.prompt "all_correct")].
Proof.
  intros H. apply reaches_passes in H.
  destruct r as [|words]; [discriminate|].
  unfold passes, usable in H. cbn [Main2.assess_return fst snd app].
  destruct (collect_scores words) as [|p d]; [discriminate|].
  cbn [andb] in H. apply none_below_forallb in H.
  rewrite main2_round_scores. cbn [fst].
  rewrite (give_phoneme_feedback_none_low t w _ H).
  eexists. rewrite app_comm_cons. reflexivity.
Qed.

(** The outcome of the loop of [main2.py], and the utterances it hears. *)
Lemma main_loop_outcome (t : Z) (w : string) (inputs : list recognition) :
  snd (Main2.main_loop t w inputs)
  = if existsb (reaches t) inputs then Accepted else AwaitingSpeech.
Proof.
  induction inputs as [|r rest IH]; [reflexivity|].
  rewrite main_loop_passes. cbn [existsb].
  destruct (reaches t r); [reflexivity | exact IH].
Qed.

Lemma heard_passes_without_nan (t : Z) (inputs : list recognition) :
  forallb without_nan inputs = true ->
  List.length
    (filter (passes t) (firstn (attempts_by (reaches t) inputs) inputs))
  = if existsb (reaches t) inputs then 1%nat else 0%nat.
Proof.
  induction inputs as [|r rest IH]; [reflexivity|].
  cbn [forallb attempts_by existsb]. intros H.
  apply andb_true_iff in H as [Hr Hrest].
  assert (E := reaches_without_nan t r Hr).
  destruct (reaches t r) eqn:Er; cbn [firstn filter orb]; rewrite <- E.
  - reflexivity.
  - now apply IH.
Qed.

(** X14: in a run of [practice_word] of [main.py] the all-correct prompt
    is spoken once when the run ends accepted, as its last event, and
    never while it is pending.  In a run of the loop of [main] of
    [main2.py] it is spoken once for every utterance heard that is usable
    and holds no score below the threshold, and a run that ends accepted
    ends with it; when no score is NaN that is once in an accepted run and
    never in a pending one, as in [main.py].  An utterance whose only
    score is NaN makes [main2.py] speak the prompt and go on listening.
    No drill prompt, whole-word prompt or announcement equals the
    all-correct prompt, whatever the phonemes and the target word. *)
Theorem all_correct_spoken_iff_accepted (t : Z) (w : string)
        (inputs : list recognition) :
  count_occ string_dec (spoken (fst (Main.practice_word_at t w inputs)))
    (Main.prompt "all_correct")
  = match snd (Main.practice_word_at t w inputs) with
    | Accepted => 1%nat
    | AwaitingSpeech => 0%nat
    end
  /\ count_occ string_dec (spoken (fst (Main2.main_loop t w inputs)))
       (Main2.prompt "all_correct")
     = List.length
         (filter (passes t)
                 (firstn (attempts_by (reaches t) inputs) inputs))
  /\ (snd (Main.practice_word_at t w inputs) = Accepted ->
        exists body,
          fst (Main.practice_word_at t w inputs)
          = body ++ [Speak (Main.prompt "all_correct")])
  /\ (snd (Main2.main_loop t w inputs) = Accepted ->
        exists body,
          fst (Main2.main_loop t w inputs)
          = body ++ [Speak (Main2.prompt "all_correct")])
  /\ (forallb without_nan inputs = true ->
        count_occ string_dec (spoken (fst (Main2.main_loop t w inputs)))
          (Main2.prompt "all_correct")
        = match snd (Main2.main_loop t w inputs) with
          | Accepted => 1%nat
          | AwaitingSpeech => 0%nat
          end)
  /\ Main2.main_loop 80 "apple" [Recognized [[("ae", NaN)]]]
     = ([Speak "Please say the word apple now."; Recognize "apple";
         Print ScoresHeading; Print (ScoreLine "ae" NaN);
         Speak (Main2.prompt "all_correct");
         Speak "Please say the word apple now."; Recognize "apple"],
        AwaitingSpeech).
Proof.
  assert (H2 : count_occ string_dec (spoken (fst (Main2.main_loop t w inputs)))
                 (Main2.prompt "all_correct")
               = List.length
                   (filter (passes t)
                      (firstn (attempts_by (reaches t) inputs) inputs))).
  { induction inputs as [|r rest IH].
    - reflexivity.
    - rewrite main_loop_passes. cbn [attempts_by].
      assert (HB := main2_round_spoken t w r).
      destruct (reaches t r) eqn:E; cbn [fst firstn filter].
      + rewrite (reaches_passes t r E) in *.
        cbn [Main2.assess_call app spoken]. rewrite HB. reflexivity.
      + rewrite (app_assoc (fst (Main2.assess_return r))).
        rewrite spoken_app, spoken_app, !count_occ_app, IH.
        cbn [Main2.assess_call spoken count_occ].
        destruct (string_dec _ _) as [e|_]; [discriminate e|].
        destruct (passes t r).
        * rewrite HB. reflexivity.
        * now rewrite (not_spoken_count _ _ HB). }
  split; [|split; [exact H2|split; [|split; [|split; [|reflexivity]]]]].
  - clear H2. induction inputs as [|r rest IH]; [reflexivity|].
    rewrite practice_word_at_passes.
    assert (HA := main_round_spoken t w r).
    destruct (passes t r); cbn [fst snd].
    + cbn [Main.assess_call app spoken]. now rewrite HA.
    + rewrite (app_assoc (fst (Main.assess_return r))).
      rewrite spoken_app, spoken_app.
      rewrite !count_occ_app, (not_spoken_count _ _ HA), IH.
      reflexivity.
  - clear H2. induction inputs as [|r rest IH]; [discriminate|].
    rewrite practice_word_at_passes.
    assert (HP := main_round_passes t w r).
    destruct (passes t r); cbn [fst snd].
    + intros _.
      destruct r as [|words]; [discriminate|].
      cbn [Main.assess_return fst snd app] in *.
      destruct (collect_scores words) as [|p d]; [discriminate|].
      rewrite main_round_scores in *.
      destruct (Main.low_scores_of t (p :: d)); [|discriminate].
      cbn [fst]. eexists. rewrite app_comm_cons, app_assoc. reflexivity.
    + intros H. destruct (IH H) as [body Hb]. rewrite Hb.
      eexists. rewrite !app_assoc. reflexivity.
  - clear H2. induction inputs as [|r rest IH]; [discriminate|].
    rewrite main_loop_passes.
    destruct (reaches t r) eqn:E; cbn [fst snd].
    + intros _. destruct (main2_round_ends t w r E) as [body Hb].
      rewrite Hb. eexists. rewrite app_assoc. reflexivity.
    + intros H. destruct (IH H) as [body Hb]. rewrite Hb.
      eexists. rewrite !app_assoc. reflexivity.
  - intros Hnan.
    rewrite H2, main_loop_outcome, (heard_passes_without_nan t inputs Hnan).
    now destruct (existsb (reaches t) inputs).
Qed.

Lemma all_correct_spoken_iff_accepted_witness :
  (exists body,
     fst (Main.practice_word_at 80 "hello"
            [Recognized [[("hh", 10 # 1)]]; Recognized [[("hh", 80 # 1)]]])
     = body ++ [Speak (Main.prompt "all_correct")])
  /\ (exists body,
        fst (Main2.main_loop 80 "apple"
               [Recognized [[("ae", 10 # 1)]]; Recognized [[("ae", 80 # 1)]]])
        = body ++ [Speak (Main2.prompt "all_correct")])
  /\ count_occ string_dec
       (spoken (fst (Main2.main_loop 80 "apple"
                       [Recognized [[("ae", 10 # 1)]];
                        Recognized [[("ae", 80 # 1)]]])))
       (Main2.prompt "all_correct")
     = 1%nat.
Proof.
  split; [|split].
  - destruct (all_correct_spoken_iff_accepted 80 "hello"
                [Recognized [[("hh", 10 # 1)]]; Recognized [[("hh", 80 # 1)]]])
      as (_ & _ & H & _).
    apply H. reflexivity.
  - destruct (all_correct_spoken_iff_accepted 80 "apple"
                [Recognized [[("ae", 10 # 1)]]; Recognized [[("ae", 80 # 1)]]])
      as (_ & _ & _ & H & _).
    apply H. reflexivity.
  - destruct (all_correct_spoken_iff_accepted 80 "apple"
                [Recognized [[("ae", 10 # 1)]]; Recognized [[("ae", 80 # 1)]]])
      as (_ & _ & _ & _ & H & _).
    apply H. reflexivity.
Defined.

(** ** The low-scoring set and the drills *)

Lemma main_drills_encouragements (ks : list string) :
  count_occ string_dec (spoken (flat_map Main.drill ks))
    (Main.prompt "success_phoneme")
  = List.length ks.
Proof.
  induction ks as [|k r IH]; [reflexivity|].
  cbn [flat_map Main.drill app spoken List.length].
  rewrite count_occ_cons_neq by (intros H; discriminate H).
  rewrite count_occ_cons_neq by (intros H; discriminate H).
  rewrite count_occ_cons_eq by reflexivity.
  now rewrite IH.
Qed.

Lemma main2_drills_encouragements (ks : list string) :
  count_occ string_dec (spoken (flat_map Main2.drill ks))
    (Main2.prompt "success_phoneme")
  = List.length ks.
Proof.
  induction ks as [|k r IH]; [reflexivity|].
  cbn [flat_map Main2.drill app spoken List.length].
  rewrite count_occ_cons_neq by (intros H; discriminate H).
  rewrite count_occ_cons_neq.
  - rewrite count_occ_cons_eq by reflexivity. now rewrite IH.
  - intros H. assert (Hl := main2_translate_lower k).
    rewrite H in Hl. discriminate Hl.
Qed.

(** X15: a round drills each low-scoring phoneme once and no other
    phoneme.  The encouragement that closes a drill is spoken, by the round
    of [main.py] and by [give_phoneme_feedback] of [main2.py] alike, as
    many times as the recognition result has different phonemes whose last
    score is below the threshold; the phonemes drilled are pairwise
    different, however often the result repeats one. *)
Theorem no_phoneme_drilled_twice (t : Z) (w : string)
        (words : list (list (string * number))) :
  count_occ string_dec
    (spoken (fst (Main.round t w (Some (collect_scores words)))))
    (Main.prompt "success_phoneme")
  = List.length (low_by_last t (List.concat words))
  /\ count_occ string_dec
       (spoken (Main2.give_phoneme_feedback t w (collect_scores words)))
       (Main2.prompt "success_phoneme")
     = List.length (low_by_last t (List.concat words))
  /\ count_occ string_dec
       (spoken (fst (Main2.round t w (Some (collect_scores words)))))
       (Main2.prompt "success_phoneme")
     = List.length (low_by_last t (List.concat words))
  /\ (exists drilled,
        NoDup drilled
        /\ Main2.give_phoneme_feedback t w (collect_scores words)
           = flat_map Main2.drill drilled
             ++ match drilled with
                | [] => [Speak (Main2.prompt "all_correct")]
                | _ :: _ => []
                end
        /\ flat_map Main.drill
             (keys (Main.low_scores_of t (collect_scores words)))
           = flat_map Main.drill drilled)
  /\ Main2.give_phoneme_feedback 80 "apple"
       (collect_scores [[("p", 10 # 1); ("ae", 90 # 1)]; [("p", 20 # 1)]])
     = Main2.drill "p"
  /\ fst (Main.round 80 "apple"
            (Some (collect_scores
                     [[("p", 10 # 1); ("ae", 90 # 1)]; [("p", 20 # 1)]])))
     = [Print ScoresHeading;
        Print (ScoreLine "p" (20 # 1)); Print (ScoreLine "ae" (90 # 1))]
       ++ Main.drill "p"
       ++ [Speak (format (Main.prompt "whole_word") "apple"); Sleep 1].
Proof.
  assert (Hwf := collect_scores_wf words).
  assert (Hk := collected_low_keys t words).
  assert (Hfb : Main2.give_phoneme_feedback t w (collect_scores words)
                = flat_map Main2.drill (low_by_last t (List.concat words))
                  ++ match low_by_last t (List.concat words) with
                     | [] => [Speak (Main2.prompt "all_correct")]
                     | _ :: _ => []
                     end).
  { rewrite give_phoneme_feedback_run, existsb_filter, <- Hk.
    rewrite <- (flat_map_keys Main2.drill). unfold keys.
    now destruct (filter (below t) (collect_scores words)). }
  assert (H2 : count_occ string_dec
                 (spoken (Main2.give_phoneme_feedback t w (collect_scores words)))
                 (Main2.prompt "success_phoneme")
               = List.length (low_by_last t (List.concat words))).
  { rewrite Hfb, spoken_app, count_occ_app, main2_drills_encouragements.
    destruct (low_by_last t (List.concat words)); cbn; lia. }
  split; [|split; [exact H2|split; [|split; [|split; reflexivity]]]].
  - destruct (collect_scores words) as [|p d] eqn:E.
    + rewrite <- Hk. reflexivity.
    + rewrite (main_round_run t w _ Hwf) by discriminate.
      rewrite existsb_filter, <- Hk, length_map.
      rewrite <- (flat_map_keys Main.drill).
      destruct (report_silent (p :: d)) as [Hsp _].
      cbn [fst spoken]. rewrite spoken_app, Hsp. cbn [app].
      destruct (filter (below t) (p :: d)) as [|q low]; [reflexivity|].
      rewrite spoken_app, count_occ_app, main_drills_encouragements.
      unfold keys. rewrite length_map. cbn. lia.
  - destruct (collect_scores words) as [|p d] eqn:E.
    + rewrite <- Hk. reflexivity.
    + rewrite main2_round_scores.
      destruct (report_silent (p :: d)) as [Hsp _].
      cbn [fst spoken]. rewrite spoken_app, Hsp. exact H2.
  - exists (low_by_last t (List.concat words)). split; [|split].
    + rewrite <- Hk, <- (low_scores_of_filter t _ Hwf).
      apply (low_fold_wf t (collect_scores words) []). constructor.
    + exact Hfb.
    + now rewrite (low_scores_of_filter t _ Hwf), <- Hk.
Qed.

(** ** Acceptance, round by round *)

(** X29: in a round that holds scores, [practice_word] of [main.py]
    leaves its loop exactly when the low-scoring set is empty, that is
    when no score is below the threshold.  It has then spoken the
    all-correct prompt and nothing else, and has called the recogniser
    once, whatever utterances might have followed.  When the set is not
    empty the run speaks the drills and the whole-word prompt and goes on
    with the utterances that follow; with none left it is still waiting.
    The loop of [main] of [main2.py] does the same by its own prompts and
    its announcement, provided that no score is NaN: it leaves exactly
    when [give_phoneme_feedback] found no score below the threshold. *)
Theorem accepted_iff_no_low (t : Z) (target_word : string)
        (words : list (list (string * number))) (rest : list recognition) :
  collect_scores words <> [] ->
  ((Main.low_scores_of t (collect_scores words) = []
    <-> (forall ph sc, In (ph, sc) (collect_scores words) ->
                       num_lt sc (inject_Z t) = false))
   /\ (Main.low_scores_of t (collect_scores words) = [] ->
       Main.practice_word_at t target_word (Recognized words :: rest)
       = (Recognize target_word :: Print ScoresHeading
            :: map (fun p => Print (ScoreLine (fst p) (snd p)))
                 (collect_scores words)
            ++ [Speak (Main.prompt "all_correct")],
          Accepted)
       /\ spoken (fst (Main.practice_word_at t target_word
                         (Recognized words :: rest)))
          = [Main.prompt "all_correct"]
       /\ recognitions (fst (Main.practice_word_at t target_word
                               (Recognized words :: rest)))
          = [target_word])
   /\ (Main.low_scores_of t (collect_scores words) <> [] ->
       Main.practice_word_at t target_word (Recognized words :: rest)
       = (Recognize target_word :: Print ScoresHeading
            :: map (fun p => Print (ScoreLine (fst p) (snd p)))
                 (collect_scores words)
            ++ flat_map Main.drill
                 (keys (Main.low_scores_of t (collect_scores words)))
            ++ [Speak (format (Main.prompt "whole_word") target_word); Sleep 1]
            ++ fst (Main.practice_word_at t target_word rest),
          snd (Main.practice_word_at t target_word rest)))
   /\ (snd (Main.practice_word_at t target_word [Recognized words]) = Accepted
       <-> Main.low_scores_of t (collect_scores words) = []))
  /\ (nan_free (collect_scores words) = true ->
      (filter (below t) (collect_scores words) = []
       <-> Main2.give_phoneme_feedback t target_word (collect_scores words)
           = [Speak (Main2.prompt "all_correct")])
      /\ (filter (below t) (collect_scores words) = []
          <-> (forall ph sc, In (ph, sc) (collect_scores words) ->
                             num_ge sc (inject_Z t) = true))
      /\ (filter (below t) (collect_scores words) = [] ->
          Main2.main_loop t target_word (Recognized words :: rest)
          = (Main2.assess_call target_word
               ++ Print ScoresHeading
               :: map (fun p => Print (ScoreLine (fst p) (snd p)))
                    (collect_scores words)
               ++ [Speak (Main2.prompt "all_correct")],
             Accepted)
          /\ spoken (fst (Main2.main_loop t target_word
                            (Recognized words :: rest)))
             = [ ("Please say the word " ++ target_word ++ " now.")%string;
                 Main2.prompt "all_correct" ]
          /\ recognitions (fst (Main2.main_loop t target_word
                                  (Recognized words :: rest)))
             = [target_word])
      /\ (filter (below t) (collect_scores words) <> [] ->
          Main2.main_loop t target_word (Recognized words :: rest)
          = (Main2.assess_call target_word
               ++ Print ScoresHeading
               :: map (fun p => Print (ScoreLine (fst p) (snd p)))
                    (collect_scores words)
               ++ flat_map (fun p => Main2.drill (fst p))
                    (filter (below t) (collect_scores words))
               ++ fst (Main2.main_loop t target_word rest),
             snd (Main2.main_loop t target_word rest)))
      /\ (snd (Main2.main_loop t target_word [Recognized words]) = Accepted
          <-> filter (below t) (collect_scores words) = [])).
Proof.
  intros Hne.
  rewrite !practice_word_at_cons, !main_loop_cons.
  cbn [Main.assess_return Main2.assess_return fst snd].
  assert (Hwf := collect_scores_wf words).
  remember (collect_scores words) as scores eqn:Hs. clear Hs.
  destruct scores as [|p d]; [contradiction|]. clear Hne.
  rewrite main_round_scores, main2_round_scores.
  destruct (report_silent (p :: d)) as [Hsp Hrec].
  split.
  - split; [|split; [|split]].
    + rewrite low_scores_of_nil. apply none_below_iff.
    + intros Hlow. rewrite Hlow. cbn [fst snd].
      split; [reflexivity|]. split.
      * cbn [Main.assess_call app spoken]. now rewrite spoken_app, Hsp.
      * cbn [Main.assess_call app recognitions].
        now rewrite recognitions_app, Hrec.
    + intros Hlow.
      destruct (Main.low_scores_of t (p :: d)) as [|q low]; [congruence|].
      cbn [fst snd Main.assess_call app]. f_equal. f_equal. f_equal.
      now rewrite <- !app_assoc.
    + destruct (Main.low_scores_of t (p :: d)) as [|q low]; cbn [snd];
        split; intros H; try reflexivity; discriminate H.
  - intros Hnan.
    assert (Hall := all_correct_iff t (p :: d) Hnan).
    assert (Hfb := give_phoneme_feedback_run t target_word (p :: d)).
    rewrite existsb_filter in Hfb.
    split; [|split; [|split; [|split]]].
    + split; [apply give_phoneme_feedback_none_low|].
      rewrite Hfb. destruct (filter (below t) (p :: d)); [reflexivity|].
      intros H. discriminate H.
    + rewrite <- Hall. unfold Main2.all_correct.
      rewrite (forallb_values (fun score : number => num_ge score (inject_Z t))
                 (p :: d)).
      rewrite forallb_forall. split.
      * intros H ph sc Hin. exact (H (ph, sc) Hin).
      * intros H [ph sc] Hin. exact (H ph sc Hin).
    + intros H0. rewrite (proj2 Hall H0).
      rewrite (give_phoneme_feedback_none_low t target_word _ H0).
      cbn [fst snd].
      split; [reflexivity|]. split.
      * cbn [Main2.assess_call app spoken]. now rewrite spoken_app, Hsp.
      * cbn [Main2.assess_call app recognitions].
        now rewrite recognitions_app, Hrec.
    + intros H0.
      destruct (Main2.all_correct t (p :: d)) eqn:Ea;
        [exfalso; apply H0, (proj1 Hall); reflexivity|].
      rewrite Hfb. cbn [fst snd].
      destruct (filter (below t) (p :: d)) as [|q low]; [congruence|].
      rewrite app_nil_r. f_equal. f_equal. cbn [app]. f_equal.
      now rewrite <- !app_assoc.
    + cbn [snd]. rewrite <- Hall.
      destruct (Main2.all_correct t (p :: d)); cbn [snd];
        split; intros H; try reflexivity; discriminate H.
Qed.

Lemma accepted_iff_no_low_witness :
  snd (Main.practice_word_at 80 "hello"
         [Recognized [[("hh", 80 # 1); ("eh", 95 # 1)]]])
  = Accepted
  /\ spoken (fst (Main2.main_loop 80 "apple"
                    (Recognized [[("ae", 80 # 1)]; [("p", 99 # 1)]]
                       :: [NoSpeech])))
     = ["Please say the word apple now."; Main2.prompt "all_correct"].
Proof.
  split.
  - apply (proj1 (accepted_iff_no_low 80 "hello"
                    [[("hh", 80 # 1); ("eh", 95 # 1)]] []
                    ltac:(discriminate))).
    reflexivity.
  - apply (proj2 (accepted_iff_no_low 80 "apple"
                    [[("ae", 80 # 1)]; [("p", 99 # 1)]] [NoSpeech]
                    ltac:(discriminate)));
      reflexivity.
Defined.

(** X16: on the mapping of an assessment result the two files drill the
    same phonemes in the same order: [main2.py] speaks its all-correct
    prompt when the low-scoring set of [main.py] is empty, and otherwise
    its drill for each key of that set, in the order of the set. *)
Theorem variants_drill_alike (t : Z) (w : string)
        (words : list (list (string * number))) :
  Main2.give_phoneme_feedback t w (collect_scores words)
  = match Main.low_scores_of t (collect_scores words) with
    | [] => [Speak (Main2.prompt "all_correct")]
    | _ :: _ =>
        flat_map Main2.drill (keys (Main.low_scores_of t (collect_scores words)))
    end.
Proof.
  rewrite (low_scores_of_filter t _ (collect_scores_wf words)).
  unfold Main2.give_phoneme_feedback. rewrite feedback_fold, flat_map_keys.
  cbn [fst snd app].
  destruct (filter (below t) (collect_scores words)) as [|q low];
    [reflexivity|].
  replace (0 + Z.of_nat (List.length (q :: low)) =? 0)%Z with false;
    [reflexivity|].
  symmetry. apply Z.eqb_neq. cbn [List.length]. lia.
Qed.

(** ** Speaking: the port search *)

Import Playback.

Section PortSearch.

Variable raises : site -> bool.

Lemma find_port_spec (n : nat) (p : Z) :
  match snd (find_port raises n p) with
  | Ok q =>
      (p <= q < p + Z.of_nat n)%Z
      /\ raises (BindTest q) = false
      /\ (forall r, (p <= r < q)%Z -> raises (BindTest r) = true)
  | Err e =>
      e = NoFreePort
      /\ (forall r, (p <= r < p + Z.of_nat n)%Z -> raises (BindTest r) = true)
  end.
Proof.
  revert p. induction n as [|n IH]; intros p.
  - simpl. split; [reflexivity | intros r Hr; lia].
  - cbn [find_port]. unfold try_except, bind, call.
    destruct (raises (BindTest p)) eqn:E; cbn [fst snd].
    + specialize (IH (p + 1)%Z).
      destruct (snd (find_port raises n (p + 1))) as [q|e].
      * destruct IH as (Hq & Hfree & Hbusy).
        split; [lia|]. split; [exact Hfree|].
        intros r Hr. destruct (Z.eq_dec r p) as [->|Hne]; [exact E|].
        apply Hbusy. lia.
      * destruct IH as (He & Hbusy). split; [exact He|].
        intros r Hr. destruct (Z.eq_dec r p) as [->|Hne]; [exact E|].
        apply Hbusy. lia.
    + split; [lia|]. split; [exact E|]. intros r Hr. lia.
Qed.

Lemma find_port_stage (n : nat) (p : Z) :
  Forall (fun s => stage_of (site_of s) = PortSearch)
         (fst (find_port raises n p)).
Proof.
  revert p. induction n as [|n IH]; intros p.
  - constructor.
  - cbn [find_port]. unfold try_except, bind, call.
    destruct (raises (BindTest p)); cbn [fst snd].
    + constructor; [reflexivity | apply IH].
    + repeat constructor.
Qed.

End PortSearch.

(** X17: the port search of [speak] tries the ports upwards from where
    it starts and answers the first one that can be bound: the port found
    lies within the attempts made, it could be bound and every port below
    it could not; the search fails, with its own exception, exactly when
    none of the ports tried can be bound.  [speak] tries the ten ports
    from 8000 to 8009. *)
Theorem port_search_first_free (raises : site -> bool) (n : nat) (p : Z) :
  (forall q, snd (find_port raises n p) = Ok q ->
     (p <= q < p + Z.of_nat n)%Z
     /\ raises (BindTest q) = false
     /\ (forall r, (p <= r < q)%Z -> raises (BindTest r) = true))
  /\ (forall e, snd (find_port raises n p) = Err e ->
        e = NoFreePort
        /\ (forall r, (p <= r < p + Z.of_nat n)%Z -> raises (BindTest r) = true))
  /\ ((forall r, (8000 <= r < 8010)%Z -> raises (BindTest r) = true) ->
        snd (find_port raises 10 8000) = Err NoFreePort)
  /\ (forall q, snd (find_port raises 10 8000) = Ok q -> (8000 <= q <= 8009)%Z).
Proof.
  assert (H := find_port_spec raises n p).
  assert (H10 := find_port_spec raises 10 8000).
  split; [|split; [|split]].
  - intros q Hq. now rewrite Hq in H.
  - intros e He. now rewrite He in H.
  - intros Hbusy.
    destruct (snd (find_port raises 10 8000)) as [q|e].
    + destruct H10 as (Hq & Hfree & _).
      rewrite Hbusy in Hfree; [discriminate | lia].
    + destruct H10 as [-> _]. reflexivity.
  - intros q Hq. rewrite Hq in H10. lia.
Qed.

Lemma port_search_first_free_witness :
  (8000 <= 8002 < 8000 + Z.of_nat 10)%Z
  /\ (fun s => match s with
               | BindTest 8000 | BindTest 8001 => true
               | _ => false
               end) (BindTest 8002) = false
  /\ (forall r, (8000 <= r < 8002)%Z ->
                (fun s => match s with
                          | BindTest 8000 | BindTest 8001 => true
                          | _ => false
                          end) (BindTest r) = true).
Proof.
  apply (proj1 (port_search_first_free
                  (fun s => match s with
                            | BindTest 8000 | BindTest 8001 => true
                            | _ => false
                            end) 10 8000) 8002%Z).
  reflexivity.
Defined.

(** ** Speaking: the parts of a run *)

Lemma last_app_nonempty {A} (a b : list A) (d : A) :
  b <> [] -> last (a ++ b) d = last b d.
Proof.
  intros Hb. induction a as [|x r IH]; [reflexivity|].
  simpl. destruct (r ++ b) eqn:E; [|exact IH].
  apply app_eq_nil in E. tauto.
Qed.

Lemma last_indep {A} (l : list A) (d d' : A) :
  l <> [] -> last l d = last l d'.
Proof.
  induction l as [|x r IH]; [congruence|].
  intros _. simpl. destruct r; [reflexivity|]. apply IH. discriminate.
Qed.

Lemma in_other_stage (l : list step) (g : stage) (x : step) :
  Forall (fun s => stage_of (site_of s) = g) l ->
  stage_of (site_of x) <> g ->
  ~ In x l.
Proof.
  intros Hl Hx Hin. rewrite Forall_forall in Hl. apply Hx. now apply Hl.
Qed.

Section Runs.

Variable raises : site -> bool.

Lemma synthesize_stage (text : string) :
  Forall (fun s => stage_of (site_of s) = Synthesis)
         (fst (synthesize raises text)).
Proof.
  unfold synthesize, bind, call.
  destruct (raises (Convert text)); cbn [fst snd]; [repeat constructor|].
  destruct (raises CreateTemp); cbn [fst snd]; [repeat constructor|].
  destruct (raises WriteChunks); cbn [fst snd app]; repeat constructor.
Qed.

Lemma synthesize_result (text : string) :
  snd (synthesize raises text) = Ok tt
  \/ snd (synthesize raises text) = Err (Raised (Convert text))
  \/ snd (synthesize raises text) = Err (Raised CreateTemp)
  \/ snd (synthesize raises text) = Err (Raised WriteChunks).
Proof.
  unfold synthesize, bind, call.
  destruct (raises (Convert text)); cbn [fst snd]; [tauto|].
  destruct (raises CreateTemp); cbn [fst snd]; [tauto|].
  destruct (raises WriteChunks); cbn [fst snd]; tauto.
Qed.

Lemma play_locally_stage :
  Forall (fun s => stage_of (site_of s) = LocalPlayback)
         (fst (play_locally raises)).
Proof.
  unfold play_locally, try_finally, swallow, bind, call.
  destruct (raises MixerInit), (raises MixerLoad), (raises MixerPlay),
    (raises UnlinkAfterLocal); cbn [fst snd app]; repeat constructor.
Qed.

(** The local playback begins with the mixer and ends with the removal
    of the file; only the mixer can make it fail. *)
Lemma play_locally_shape :
  (exists rest, fst (play_locally raises) = Done MixerInit :: rest
                \/ fst (play_locally raises) = Failed MixerInit :: rest)
  /\ is_unlink (last (fst (play_locally raises)) (Done MixerInit)) = true
  /\ (snd (play_locally raises) = Ok tt
      \/ snd (play_locally raises) = Err (Raised MixerInit)
      \/ snd (play_locally raises) = Err (Raised MixerLoad)
      \/ snd (play_locally raises) = Err (Raised MixerPlay))
  /\ (snd (play_locally raises) = Ok tt ->
      In (Done MixerPlay) (fst (play_locally raises))).
Proof.
  unfold play_locally, try_finally, swallow, bind, call.
  destruct (raises MixerInit), (raises MixerLoad), (raises MixerPlay),
    (raises UnlinkAfterLocal); cbn [fst snd app last is_unlink];
    (split; [eexists; (left; reflexivity) || (right; reflexivity)|]);
    (split; [reflexivity|]); (split; [tauto|]);
    intros H; try discriminate H; simpl; tauto.
Qed.

Lemma get_google_home_cast_stage (available : bool) (ip name : string)
      (d : device) (named all : list device) (cache : option device) :
  Forall (fun s => stage_of (site_of s) = Connection)
         (fst (fst (get_google_home_cast raises available ip name d named all
                      cache))).
Proof.
  unfold get_google_home_cast, connect, pick_address, pick_listed.
  destruct available, cache, (raises CachedWait), (nonempty ip),
    (nonempty name), (raises ConnectIp), (raises FreshWait),
    (raises ListNamed), (raises ListAll), (raises StopDiscovery),
    named, all; cbn [negb fst snd]; repeat constructor.
Qed.

End Runs.

(** ** Speaking: the cast path *)

Ltac serve_paths raises :=
  unfold serve_and_cast, local_address, bind, try_finally, try_except,
    swallow, call, ret;
  repeat match goal with
         | |- context [raises ?s] =>
             destruct (raises s) eqn:?; cbn [fst snd app]
         end.

Ltac pick_in := simpl; repeat (first [left; reflexivity | right]).

Section CastPath.

Variable raises : site -> bool.

Lemma serve_and_cast_stage (port : Z) :
  Forall (fun s => stage_of (site_of s) = Casting)
         (fst (serve_and_cast raises port)).
Proof. serve_paths raises; repeat constructor. Qed.

(** A cast that returns has played the audio and ends with the removal of
    the file. *)
Lemma serve_and_cast_ok (port : Z) :
  snd (serve_and_cast raises port) = Ok tt ->
  is_unlink (last (fst (serve_and_cast raises port)) (Done GetCwd)) = true
  /\ (exists from, In (Done (CastMedia from port))
                      (fst (serve_and_cast raises port)))
  /\ (forall from p, ~ In (Failed (CastMedia from p))
                         (fst (serve_and_cast raises port)))
  /\ ~ In (Failed ShutdownServer) (fst (serve_and_cast raises port))
  /\ ~ In (Failed ChdirBack) (fst (serve_and_cast raises port)).
Proof.
  serve_paths raises; intros H; try discriminate H;
    (split; [reflexivity|]);
    (split; [eexists; pick_in|]);
    (split; [intros from p|split]); simpl; intuition discriminate.
Qed.

(** A cast that fails has taken at least one step, raised at a program
    point, and if it removed the file it did so last. *)
Lemma serve_and_cast_err (port : Z) (e : exn) :
  snd (serve_and_cast raises port) = Err e ->
  fst (serve_and_cast raises port) <> []
  /\ (exists s, e = Raised s /\ stage_of s = Casting)
  /\ (In (Done UnlinkAfterCast) (fst (serve_and_cast raises port)) ->
      last (fst (serve_and_cast raises port)) (Done GetCwd)
      = Done UnlinkAfterCast
      /\ exists from, In (Failed (CastMedia from port))
                         (fst (serve_and_cast raises port)))
  /\ (forall from p,
        In (Done (CastMedia from p)) (fst (serve_and_cast raises port)) ->
        In (Failed ShutdownServer) (fst (serve_and_cast raises port))
        \/ In (Failed ChdirBack) (fst (serve_and_cast raises port))).
Proof.
  serve_paths raises; intros H; try discriminate H;
    injection H as <-;
    (split; [discriminate|]);
    (split; [eexists; split; reflexivity|]);
    (split; [intros Hin; simpl in Hin;
             first [ exfalso; intuition discriminate
                   | split; [reflexivity | eexists; pick_in] ]
            |]);
    intros from p Hin; simpl in Hin; simpl; intuition discriminate.
Qed.

(** The working directory: once it was changed to the directory of the
    file, the change back is attempted exactly when the server was started
    and its shutdown did not raise. *)
Lemma serve_and_cast_chdir (port : Z) :
  In (Done ChdirTemp) (fst (serve_and_cast raises port)) ->
  ((In (Done ChdirBack) (fst (serve_and_cast raises port))
    \/ In (Failed ChdirBack) (fst (serve_and_cast raises port)))
   <-> (In (Done (StartServer port)) (fst (serve_and_cast raises port))
        /\ In (Done ShutdownServer) (fst (serve_and_cast raises port)))).
Proof.
  serve_paths raises; intros H; simpl in H; simpl;
    intuition discriminate.
Qed.

Lemma serve_and_cast_port (port p : Z) :
  In (Done (StartServer p)) (fst (serve_and_cast raises port)) -> p = port.
Proof.
  serve_paths raises; intros H; simpl in H;
    repeat (destruct H as [H|H]; [try discriminate H; now injection H|]);
    contradiction.
Qed.

End CastPath.

(** ** Speaking: a whole run *)

(** Membership in a run, by the part of the program. *)
Lemma in_casting_part (x : step) (s g t c l : list step) :
  Forall (fun y => stage_of (site_of y) = Synthesis) s ->
  Forall (fun y => stage_of (site_of y) = Connection) g ->
  Forall (fun y => stage_of (site_of y) = PortSearch) t ->
  Forall (fun y => stage_of (site_of y) = LocalPlayback) l ->
  stage_of (site_of x) = Casting ->
  (In x (s ++ g ++ t ++ c ++ l) <-> In x c).
Proof.
  intros Hs Hg Ht Hl Hx. rewrite !in_app_iff.
  assert (~ In x s) by (apply (in_other_stage s Synthesis); [assumption | congruence]).
  assert (~ In x g) by (apply (in_other_stage g Connection); [assumption | congruence]).
  assert (~ In x t) by (apply (in_other_stage t PortSearch); [assumption | congruence]).
  assert (~ In x l) by (apply (in_other_stage l LocalPlayback); [assumption | congruence]).
  tauto.
Qed.

Lemma in_local_part (x : step) (s g t c l : list step) :
  Forall (fun y => stage_of (site_of y) = Synthesis) s ->
  Forall (fun y => stage_of (site_of y) = Connection) g ->
  Forall (fun y => stage_of (site_of y) = PortSearch) t ->
  Forall (fun y => stage_of (site_of y) = Casting) c ->
  stage_of (site_of x) = LocalPlayback ->
  (In x (s ++ g ++ t ++ c ++ l) <-> In x l).
Proof.
  intros Hs Hg Ht Hc Hx. rewrite !in_app_iff.
  assert (~ In x s) by (apply (in_other_stage s Synthesis); [assumption | congruence]).
  assert (~ In x g) by (apply (in_other_stage g Connection); [assumption | congruence]).
  assert (~ In x t) by (apply (in_other_stage t PortSearch); [assumption | congruence]).
  assert (~ In x c) by (apply (in_other_stage c Casting); [assumption | congruence]).
  tauto.
Qed.

Section SpeakRuns.

Variable raises : site -> bool.
Variable available : bool.
Variables ip name : string.
Variable dev : device.
Variables named all : list device.

(** The shapes of a run of [speak]: the synthesis failed; or the local
    playback followed the connection and, possibly, a failed port search;
    or the cast returned; or the cast failed and the local playback
    followed. *)
Lemma speak_form (text : string) (cache : option device) :
  (exists e,
     snd (synthesize raises text) = Err e
     /\ fst (speak raises available ip name dev named all text cache)
        = (fst (synthesize raises text), Err e))
  \/ (snd (synthesize raises text) = Ok tt
      /\ exists g t,
           Forall (fun y => stage_of (site_of y) = Connection) g
           /\ Forall (fun y => stage_of (site_of y) = PortSearch) t
           /\ (fst (speak raises available ip name dev named all text cache)
               = (fst (synthesize raises text) ++ g ++ t ++ []
                    ++ fst (play_locally raises),
                  snd (play_locally raises))
               \/ (exists port,
                     snd (serve_and_cast raises port) = Ok tt
                     /\ fst (speak raises available ip name dev named all
                               text cache)
                        = (fst (synthesize raises text) ++ g ++ t
                             ++ fst (serve_and_cast raises port) ++ [],
                           Ok tt))
               \/ (exists port e,
                     snd (serve_and_cast raises port) = Err e
                     /\ fst (speak raises available ip name dev named all
                               text cache)
                        = (fst (synthesize raises text) ++ g ++ t
                             ++ fst (serve_and_cast raises port)
                             ++ fst (play_locally raises),
                           snd (play_locally raises))))).
Proof.
  unfold speak.
  destruct (synthesize raises text) as [s [[]|e]] eqn:Hs; cbn [fst snd].
  - right. split; [reflexivity|].
    assert (Hg := get_google_home_cast_stage raises available ip name dev
                    named all cache).
    destruct (get_google_home_cast raises available ip name dev named all cache)
      as [[g cache'] cast].
    cbn [fst snd] in *. exists g.
    destruct cast as [c|]; cbn [play].
    + unfold try_except, cast_audio, bind.
      assert (Ht := find_port_stage raises 10 8000).
      destruct (find_port raises 10 8000) as [t [port|e]]; cbn [fst snd] in *.
      * exists t. split; [exact Hg|]. split; [exact Ht|].
        destruct (serve_and_cast raises port) as [ct [[]|e]] eqn:Hc;
          cbn [fst snd].
        -- right. left. exists port. rewrite Hc. split; [reflexivity|].
           cbn [fst]. now rewrite app_nil_r.
        -- right. right. exists port, e. rewrite Hc. split; [reflexivity|].
           cbn [fst]. now rewrite <- !app_assoc.
      * exists t. split; [exact Hg|]. split; [exact Ht|]. left.
        reflexivity.
    + exists []. split; [exact Hg|]. split; [constructor|]. left. reflexivity.
  - left. exists e. split; reflexivity.
Qed.

End SpeakRuns.

Lemma synthesize_written (raises : site -> bool) (text : string) :
  (snd (synthesize raises text) = Ok tt
   <-> In (Done WriteChunks) (fst (synthesize raises text)))
  /\ existsb is_unlink (fst (synthesize raises text)) = false.
Proof.
  unfold synthesize, bind, call.
  destruct (raises (Convert text)), (raises CreateTemp), (raises WriteChunks);
    cbn [fst snd app]; simpl; (split; [|reflexivity]);
    split; intros H; try discriminate H; try reflexivity;
    intuition discriminate.
Qed.

Lemma no_unlink_in_stage (l : list step) (g : stage) :
  Forall (fun y => stage_of (site_of y) = g) l ->
  g <> Casting -> g <> LocalPlayback ->
  existsb is_unlink l = false.
Proof.
  intros Hl H1 H2. induction Hl as [|x r Hx _ IH]; [reflexivity|].
  simpl. rewrite IH, orb_false_r.
  destruct x as [[]|[]]; simpl in *; congruence.
Qed.

Lemma last_unlink_exists (l : list step) (d : step) :
  is_unlink d = false ->
  is_unlink (last l d) = true ->
  existsb is_unlink l = true.
Proof.
  intros Hd. induction l as [|x r IH]; simpl; [congruence|].
  destruct r as [|y r'].
  - intros H. now rewrite H.
  - intros H. rewrite (IH H). apply orb_true_r.
Qed.

(** X18: [speak] of [main.py] raises only what the synthesis or the local
    playback raised: whatever goes wrong with the cast device, the port
    search, the file server or the casting is caught and answered by the
    local playback.  When [speak] returns, the audio was played, by the
    cast device or by the mixer. *)
Theorem speak_raises_only_synthesis_or_mixer
        (raises : site -> bool) (available : bool) (ip name : string)
        (dev : device) (named all : list device)
        (text : string) (cache : option device) :
  (forall e,
     snd (fst (speak raises available ip name dev named all text cache)) = Err e ->
     e = Raised (Convert text) \/ e = Raised CreateTemp
     \/ e = Raised WriteChunks \/ e = Raised MixerInit
     \/ e = Raised MixerLoad \/ e = Raised MixerPlay)
  /\ (snd (fst (speak raises available ip name dev named all text cache)) = Ok tt ->
      (exists from port,
         In (Done (CastMedia from port))
            (fst (fst (speak raises available ip name dev named all text cache))))
      \/ In (Done MixerPlay)
            (fst (fst (speak raises available ip name dev named all text cache)))).
Proof.
  destruct (play_locally_shape raises) as (_ & _ & Hres & Hplayed).
  destruct (speak_form raises available ip name dev named all text cache)
    as [(e' & He' & ->)|(Hs & g & t & Hg & Ht & [->|[(port & Hc & ->)|(port & e' & Hc & ->)]])];
    cbn [fst snd].
  - split.
    + intros e [= <-].
      destruct (synthesize_result raises text) as [H|[H|[H|H]]];
        rewrite H in He'; try discriminate He'; injection He' as <-; tauto.
    + discriminate.
  - split.
    + intros e He. rewrite He in Hres.
      destruct Hres as [H|[H|[H|H]]]; try discriminate H;
        injection H as ->; tauto.
    + intros H. right. rewrite !in_app_iff. auto 10.
  - split; [discriminate|]. intros _. left.
    destruct (serve_and_cast_ok raises port Hc) as (_ & (from & Hin) & _).
    exists from, port. rewrite !in_app_iff. auto 10.
  - split.
    + intros e He. rewrite He in Hres.
      destruct Hres as [H|[H|[H|H]]]; try discriminate H;
        injection H as ->; tauto.
    + intros H. right. rewrite !in_app_iff. auto 10.
Qed.

Lemma speak_raises_only_synthesis_or_mixer_witness :
  (exists from port,
     In (Done (CastMedia from port))
        (fst (fst (speak (fun _ => false) true "10.0.0.7" "" 1%nat [] []
                     "Nice! Much better!" None))))
  \/ In (Done MixerPlay)
        (fst (fst (speak (fun _ => false) true "10.0.0.7" "" 1%nat [] []
                     "Nice! Much better!" None))).
Proof.
  apply (proj2 (speak_raises_only_synthesis_or_mixer
                  (fun _ => false) true "10.0.0.7" "" 1%nat [] []
                  "Nice! Much better!" None)).
  reflexivity.
Defined.

(** X19: [speak] of [main.py] attempts to remove the temporary file
    exactly when the audio was written to it completely, and that attempt
    is then the last step of the run, whichever way the playback went; a
    file that was created but not written completely is left behind. *)
Theorem speak_removes_file_last
        (raises : site -> bool) (available : bool) (ip name : string)
        (dev : device) (named all : list device)
        (text : string) (cache : option device) :
  (existsb is_unlink
     (fst (fst (speak raises available ip name dev named all text cache)))
   = true
   <-> In (Done WriteChunks)
          (fst (fst (speak raises available ip name dev named all text cache))))
  /\ (In (Done WriteChunks)
         (fst (fst (speak raises available ip name dev named all text cache))) ->
      is_unlink
        (last (fst (fst (speak raises available ip name dev named all text cache)))
              (Done CreateTemp))
      = true).
Proof.
  destruct (synthesize_written raises text) as [Hw Hnone].
  destruct (play_locally_shape raises) as ((rest & Hrest) & Hlast & _ & _).
  assert (Hl : fst (play_locally raises) <> [])
    by (destruct Hrest as [-> | ->]; discriminate).
  assert (Hend : snd (synthesize raises text) = Ok tt ->
                 forall tr,
                   fst (fst (speak raises available ip name dev named all
                               text cache)) = tr ->
                   is_unlink (last tr (Done CreateTemp)) = true).
  { intros Hs tr <-.
    destruct (speak_form raises available ip name dev named all text cache)
      as [(e' & He' & _)|(_ & g & t & Hg & Ht & [->|[(port & Hc & ->)|(port & e' & Hc & ->)]])];
      [congruence| | |]; cbn [fst snd app].
    - rewrite !app_assoc, last_app_nonempty by exact Hl.
      now rewrite (last_indep _ _ (Done MixerInit) Hl).
    - destruct (serve_and_cast_ok raises port Hc) as (Hu & (from & Hin) & _).
      assert (Hne : fst (serve_and_cast raises port) <> [])
        by (intros E; now rewrite E in Hin).
      rewrite app_nil_r, !app_assoc, last_app_nonempty by exact Hne.
      now rewrite (last_indep _ _ (Done GetCwd) Hne).
    - rewrite !app_assoc, last_app_nonempty by exact Hl.
      now rewrite (last_indep _ _ (Done MixerInit) Hl). }
  assert (Hin : In (Done WriteChunks)
                   (fst (fst (speak raises available ip name dev named all
                                text cache)))
                <-> snd (synthesize raises text) = Ok tt).
  { destruct (speak_form raises available ip name dev named all text cache)
      as [(e' & He' & ->)|(Hs & g & t & Hg & Ht & H)].
    - cbn [fst]. rewrite <- Hw. tauto.
    - split; [tauto|]. intros _. apply Hw in Hs.
      destruct H as [->|[(port & Hc & ->)|(port & e' & Hc & ->)]];
        cbn [fst]; apply in_or_app; now left. }
  split.
  - rewrite Hin. split.
    + intros Hex.
      destruct (speak_form raises available ip name dev named all text cache)
        as [(e' & He' & E)|(Hs & _)]; [|exact Hs].
      rewrite E in Hex. cbn [fst] in Hex. congruence.
    + intros Hs.
      apply (last_unlink_exists _ (Done CreateTemp)); [reflexivity|].
      now apply Hend.
  - intros H. apply Hin in H. now apply Hend.
Qed.

Lemma speak_removes_file_last_witness :
  is_unlink
    (last (fst (fst (speak (fun s => match s with
                                     | CastMedia _ _ => true
                                     | _ => false
                                     end)
                       true "" "Kitchen" 0%nat [4%nat] [] "Your turn: luh" None)))
          (Done CreateTemp))
  = true.
Proof.
  apply (proj2 (speak_removes_file_last
                  (fun s => match s with
                            | CastMedia _ _ => true
                            | _ => false
                            end)
                  true "" "Kitchen" 0%nat [4%nat] [] "Your turn: luh" None)).
  simpl. tauto.
Defined.

(** X20: when the casting itself fails in [speak] of [main.py] and the
    clean-up of the cast path has removed the temporary file, the local
    playback that follows starts right after that removal: the mixer is
    then asked to load a file that is no longer there. *)
Theorem speak_fallback_after_removal
        (raises : site -> bool) (available : bool) (ip name : string)
        (dev : device) (named all : list device)
        (text : string) (cache : option device) (from : address) (p : Z) :
  In (Failed (CastMedia from p))
     (fst (fst (speak raises available ip name dev named all text cache))) ->
  In (Done UnlinkAfterCast)
     (fst (fst (speak raises available ip name dev named all text cache))) ->
  exists pre,
    fst (fst (speak raises available ip name dev named all text cache))
    = pre ++ Done UnlinkAfterCast :: fst (play_locally raises).
Proof.
  assert (Hs := synthesize_stage raises text).
  assert (Hl := play_locally_stage raises).
  destruct (speak_form raises available ip name dev named all text cache)
    as [(e' & He' & ->)|(_ & g & t & Hg & Ht & [->|[(port & Hc & ->)|(port & e' & Hc & ->)]])];
    cbn [fst]; intros Hfail Hrm.
  - exfalso. revert Hfail.
    apply (in_other_stage _ Synthesis); [exact Hs | discriminate].
  - exfalso.
    apply (proj1 (in_casting_part (Failed (CastMedia from p)) _ _ _ _ _
             Hs Hg Ht Hl eq_refl)) in Hfail.
    exact Hfail.
  - exfalso.
    apply (proj1 (in_casting_part (Failed (CastMedia from p)) _ _ _ _ []
             Hs Hg Ht (Forall_nil _) eq_refl)) in Hfail.
    destruct (serve_and_cast_ok raises port Hc) as (_ & _ & Hno & _).
    now apply Hno in Hfail.
  - apply (proj1 (in_casting_part (Done UnlinkAfterCast) _ _ _ _ _
             Hs Hg Ht Hl eq_refl)) in Hrm.
    destruct (serve_and_cast_err raises port e' Hc) as (Hne & _ & Hlast & _).
    destruct (Hlast Hrm) as [Hlast' _].
    rewrite (app_removelast_last (Done GetCwd) Hne), Hlast'.
    exists (fst (synthesize raises text) ++ g ++ t
              ++ removelast (fst (serve_and_cast raises port))).
    now rewrite <- !app_assoc.
Qed.

Lemma speak_fallback_after_removal_witness :
  exists pre,
    fst (fst (speak (fun s => match s with
                              | CastMedia _ _ => true
                              | _ => false
                              end)
                true "" "" 0%nat [] [7%nat] "Your turn: huh" None))
    = pre ++ Done UnlinkAfterCast
          :: fst (play_locally (fun s => match s with
                                         | CastMedia _ _ => true
                                         | _ => false
                                         end)).
Proof.
  apply (speak_fallback_after_removal
           (fun s => match s with CastMedia _ _ => true | _ => false end)
           true "" "" 0%nat [] [7%nat] "Your turn: huh" None Probed 8000).
  - simpl. tauto.
  - simpl. tauto.
Defined.

(** X21: in [speak] of [main.py], once the working directory was changed
    to the directory of the temporary file, the change back is attempted
    exactly when the file server was started and its shutdown did not
    raise: if the server cannot be started, or its shutdown raises, the
    process stays in the temporary directory. *)
Theorem speak_changes_directory_back
        (raises : site -> bool) (available : bool) (ip name : string)
        (dev : device) (named all : list device)
        (text : string) (cache : option device) :
  In (Done ChdirTemp)
     (fst (fst (speak raises available ip name dev named all text cache))) ->
  ((In (Done ChdirBack)
       (fst (fst (speak raises available ip name dev named all text cache)))
    \/ In (Failed ChdirBack)
          (fst (fst (speak raises available ip name dev named all text cache))))
   <-> ((exists port,
           In (Done (StartServer port))
              (fst (fst (speak raises available ip name dev named all text
                           cache))))
        /\ In (Done ShutdownServer)
              (fst (fst (speak raises available ip name dev named all text
                           cache))))).
Proof.
  assert (Hs := synthesize_stage raises text).
  assert (Hl := play_locally_stage raises).
  assert (Hmain : forall g t port l,
             Forall (fun y => stage_of (site_of y) = Connection) g ->
             Forall (fun y => stage_of (site_of y) = PortSearch) t ->
             Forall (fun y => stage_of (site_of y) = LocalPlayback) l ->
             In (Done ChdirTemp)
                (fst (synthesize raises text) ++ g ++ t
                   ++ fst (serve_and_cast raises port) ++ l) ->
             ((In (Done ChdirBack)
                  (fst (synthesize raises text) ++ g ++ t
                     ++ fst (serve_and_cast raises port) ++ l)
               \/ In (Failed ChdirBack)
                     (fst (synthesize raises text) ++ g ++ t
                        ++ fst (serve_and_cast raises port) ++ l))
              <-> ((exists q,
                      In (Done (StartServer q))
                         (fst (synthesize raises text) ++ g ++ t
                            ++ fst (serve_and_cast raises port) ++ l))
                   /\ In (Done ShutdownServer)
                         (fst (synthesize raises text) ++ g ++ t
                            ++ fst (serve_and_cast raises port) ++ l)))).
  { intros g t port l Hg Ht Hl' Htemp.
    rewrite (in_casting_part (Done ChdirTemp) _ _ _ _ _
               Hs Hg Ht Hl' eq_refl) in Htemp.
    rewrite (in_casting_part (Done ChdirBack) _ _ _ _ _ Hs Hg Ht Hl' eq_refl).
    rewrite (in_casting_part (Failed ChdirBack) _ _ _ _ _ Hs Hg Ht Hl' eq_refl).
    rewrite (in_casting_part (Done ShutdownServer) _ _ _ _ _
               Hs Hg Ht Hl' eq_refl).
    rewrite (serve_and_cast_chdir raises port Htemp).
    split.
    - intros [H1 H2]. split; [|exact H2]. exists port.
      now apply (in_casting_part (Done (StartServer port)) _ _ _ _ _
                   Hs Hg Ht Hl' eq_refl).
    - intros [[q Hq] H2]. split; [|exact H2].
      apply (proj1 (in_casting_part (Done (StartServer q)) _ _ _ _ _
               Hs Hg Ht Hl' eq_refl)) in Hq.
      assert (Hq' := serve_and_cast_port raises port q Hq).
      subst q. exact Hq. }
  destruct (speak_form raises available ip name dev named all text cache)
    as [(e' & He' & ->)|(_ & g & t & Hg & Ht & [->|[(port & Hc & ->)|(port & e' & Hc & ->)]])];
    cbn [fst].
  - intros H. exfalso. revert H.
    apply (in_other_stage _ Synthesis); [exact Hs | discriminate].
  - intros H. exfalso.
    apply (proj1 (in_casting_part (Done ChdirTemp) _ _ _ _ _
             Hs Hg Ht Hl eq_refl)) in H.
    exact H.
  - apply Hmain; [exact Hg | exact Ht | constructor].
  - apply Hmain; assumption.
Qed.

Lemma speak_changes_directory_back_witness :
  (In (Done ChdirBack)
      (fst (fst (speak (fun s => match s with
                                 | StartServer _ => true
                                 | _ => false
                                 end)
                   true "" "" 0%nat [] [7%nat] "Your turn: huh" None)))
   \/ In (Failed ChdirBack)
         (fst (fst (speak (fun s => match s with
                                    | StartServer _ => true
                                    | _ => false
                                    end)
                      true "" "" 0%nat [] [7%nat] "Your turn: huh" None))))
  <-> ((exists port,
          In (Done (StartServer port))
             (fst (fst (speak (fun s => match s with
                                        | StartServer _ => true
                                        | _ => false
                                        end)
                          true "" "" 0%nat [] [7%nat] "Your turn: huh" None))))
       /\ In (Done ShutdownServer)
             (fst (fst (speak (fun s => match s with
                                        | StartServer _ => true
                                        | _ => false
                                        end)
                          true "" "" 0%nat [] [7%nat] "Your turn: huh" None)))).
Proof.
  apply (speak_changes_directory_back
           (fun s => match s with StartServer _ => true | _ => false end)
           true "" "" 0%nat [] [7%nat] "Your turn: huh" None).
  simpl. tauto.
Defined.

(** X22: after the cast device has played the audio, [speak] of
    [main.py] starts the local playback as well exactly when the shutdown
    of the file server or the change back of the directory raised: the
    text is then played a second time. *)
Theorem speak_plays_twice
        (raises : site -> bool) (available : bool) (ip name : string)
        (dev : device) (named all : list device)
        (text : string) (cache : option device) (from : address) (p : Z) :
  In (Done (CastMedia from p))
     (fst (fst (speak raises available ip name dev named all text cache))) ->
  ((In (Done MixerInit)
       (fst (fst (speak raises available ip name dev named all text cache)))
    \/ In (Failed MixerInit)
          (fst (fst (speak raises available ip name dev named all text cache))))
   <-> (In (Failed ShutdownServer)
           (fst (fst (speak raises available ip name dev named all text cache)))
        \/ In (Failed ChdirBack)
              (fst (fst (speak raises available ip name dev named all text
                           cache))))).
Proof.
  assert (Hs := synthesize_stage raises text).
  assert (Hl := play_locally_stage raises).
  destruct (play_locally_shape raises) as ((rest & Hrest) & _).
  destruct (speak_form raises available ip name dev named all text cache)
    as [(e' & He' & ->)|(_ & g & t & Hg & Ht & [->|[(port & Hc & ->)|(port & e' & Hc & ->)]])];
    cbn [fst]; intros Hcast.
  - exfalso. revert Hcast.
    apply (in_other_stage _ Synthesis); [exact Hs | discriminate].
  - exfalso.
    apply (proj1 (in_casting_part (Done (CastMedia from p)) _ _ _ _ _
             Hs Hg Ht Hl eq_refl)) in Hcast.
    exact Hcast.
  - assert (Hc' := serve_and_cast_stage raises port).
    rewrite (in_casting_part (Failed ShutdownServer) _ _ _ _ []
               Hs Hg Ht (Forall_nil _) eq_refl).
    rewrite (in_casting_part (Failed ChdirBack) _ _ _ _ []
               Hs Hg Ht (Forall_nil _) eq_refl).
    rewrite (in_local_part (Done MixerInit) _ _ _ _ [] Hs Hg Ht Hc' eq_refl).
    rewrite (in_local_part (Failed MixerInit) _ _ _ _ [] Hs Hg Ht Hc' eq_refl).
    destruct (serve_and_cast_ok raises port Hc) as (_ & _ & _ & H1 & H2).
    simpl. tauto.
  - assert (Hc' := serve_and_cast_stage raises port).
    apply (proj1 (in_casting_part (Done (CastMedia from p)) _ _ _ _ _
             Hs Hg Ht Hl eq_refl)) in Hcast.
    rewrite (in_casting_part (Failed ShutdownServer) _ _ _ _ _
               Hs Hg Ht Hl eq_refl).
    rewrite (in_casting_part (Failed ChdirBack) _ _ _ _ _
               Hs Hg Ht Hl eq_refl).
    rewrite (in_local_part (Done MixerInit) _ _ _ _ _ Hs Hg Ht Hc' eq_refl).
    rewrite (in_local_part (Failed MixerInit) _ _ _ _ _ Hs Hg Ht Hc' eq_refl).
    destruct (serve_and_cast_err raises port e' Hc) as (_ & _ & _ & Hfail).
    specialize (Hfail from p Hcast).
    split; [tauto|]. intros _.
    destruct Hrest as [-> | ->]; simpl; tauto.
Qed.

Lemma speak_plays_twice_witness :
  (In (Done MixerInit)
      (fst (fst (speak (fun s => match s with
                                 | ShutdownServer => true
                                 | _ => false
                                 end)
                   true "" "" 0%nat [] [7%nat] "Your turn: huh" None)))
   \/ In (Failed MixerInit)
         (fst (fst (speak (fun s => match s with
                                    | ShutdownServer => true
                                    | _ => false
                                    end)
                      true "" "" 0%nat [] [7%nat] "Your turn: huh" None))))
  <-> (In (Failed ShutdownServer)
          (fst (fst (speak (fun s => match s with
                                     | ShutdownServer => true
                                     | _ => false
                                     end)
                       true "" "" 0%nat [] [7%nat] "Your turn: huh" None)))
       \/ In (Failed ChdirBack)
             (fst (fst (speak (fun s => match s with
                                        | ShutdownServer => true
                                        | _ => false
                                        end)
                          true "" "" 0%nat [] [7%nat] "Your turn: huh" None)))).
Proof.
  apply (speak_plays_twice
           (fun s => match s with ShutdownServer => true | _ => false end)
           true "" "" 0%nat [] [7%nat] "Your turn: huh" None Probed 8000).
  simpl. tauto.
Defined.

(** ** The connection to the cast device *)

Ltac cast_paths :=
  unfold get_google_home_cast, connect, pick_address, pick_listed;
  repeat match goal with
         | |- context [if ?b then _ else _] => destruct b eqn:?
         | |- context [match ?l with [] => _ | _ :: _ => _ end] =>
             destruct l eqn:?
         | |- context [match ?o with Some _ => _ | None => _ end] =>
             destruct o eqn:?
         end;
  cbn [fst snd last].

(** X23: [get_google_home_cast] hands out a connection only right after
    [wait()] has succeeded on it, and the connection it returns is the one
    it leaves in the global [_cast]. *)
Theorem cast_returned_after_wait
        (raises : site -> bool) (available : bool) (ip name : string)
        (dev : device) (named all : list device)
        (cache : option device) (c : device) :
  snd (get_google_home_cast raises available ip name dev named all cache)
  = Some c ->
  snd (fst (get_google_home_cast raises available ip name dev named all cache))
  = Some c
  /\ (last (fst (fst (get_google_home_cast raises available ip name dev
                        named all cache)))
           (Failed CachedWait) = Done CachedWait
      \/ last (fst (fst (get_google_home_cast raises available ip name dev
                           named all cache)))
              (Failed CachedWait) = Done FreshWait).
Proof.
  cast_paths; intros H; try discriminate H; injection H as <-; tauto.
Qed.

Lemma cast_returned_after_wait_witness :
  snd (fst (get_google_home_cast (fun s => match s with
                                           | CachedWait => true
                                           | _ => false
                                           end)
              true "" "Kitchen" 0%nat [5%nat; 6%nat] [] (Some 3%nat)))
  = Some 5%nat.
Proof.
  apply (cast_returned_after_wait
           (fun s => match s with CachedWait => true | _ => false end)
           true "" "Kitchen" 0%nat [5%nat; 6%nat] [] (Some 3%nat) 5%nat).
  reflexivity.
Defined.

(** X24: when [get_google_home_cast] returns nothing although the cast
    library is available, the global [_cast] is left empty unless
    [stop_discovery] or the [wait()] on the new connection raised; in that
    case the device picked stays in the global, and the next call tries it
    first. *)
Theorem cast_left_in_global
        (raises : site -> bool) (ip name : string)
        (dev : device) (named all : list device) (cache : option device) :
  snd (get_google_home_cast raises true ip name dev named all cache) = None ->
  (snd (fst (get_google_home_cast raises true ip name dev named all cache))
   = None
   <-> ~ (In (Failed StopDiscovery)
             (fst (fst (get_google_home_cast raises true ip name dev named
                          all cache)))
          \/ In (Failed FreshWait)
                (fst (fst (get_google_home_cast raises true ip name dev named
                             all cache))))).
Proof.
  cast_paths; intros H; try discriminate H; simpl;
    split; intros H'; try discriminate H'; try reflexivity;
    intuition discriminate.
Qed.

Lemma cast_left_in_global_witness :
  snd (fst (get_google_home_cast (fun s => match s with
                                           | FreshWait => true
                                           | _ => false
                                           end)
              true "10.0.0.7" "" 9%nat [] [] None))
  = None
  <-> ~ (In (Failed StopDiscovery)
            (fst (fst (get_google_home_cast (fun s => match s with
                                                      | FreshWait => true
                                                      | _ => false
                                                      end)
                         true "10.0.0.7" "" 9%nat [] [] None)))
         \/ In (Failed FreshWait)
               (fst (fst (get_google_home_cast (fun s => match s with
                                                         | FreshWait => true
                                                         | _ => false
                                                         end)
                            true "10.0.0.7" "" 9%nat [] [] None)))).
Proof.
  apply (cast_left_in_global
           (fun s => match s with FreshWait => true | _ => false end)
           "10.0.0.7" "" 9%nat [] [] None).
  reflexivity.
Defined.

(** X25: [get_google_home_cast] goes to the network only when it has to,
    and by one way only: it connects or lists devices only if the cast
    library is available and the global [_cast] is empty or its [wait()]
    raised; it lists devices only if no address is configured, and lists
    all devices only if no name is configured either. *)
Theorem cast_network_only_when_needed
        (raises : site -> bool) (available : bool) (ip name : string)
        (dev : device) (named all : list device) (cache : option device)
        (x : step) :
  In x (fst (fst (get_google_home_cast raises available ip name dev named all
                    cache))) ->
  (site_of x = ConnectIp \/ site_of x = ListNamed \/ site_of x = ListAll ->
     available = true
     /\ (cache = None
         \/ In (Failed CachedWait)
               (fst (fst (get_google_home_cast raises available ip name dev
                            named all cache)))))
  /\ (site_of x = ConnectIp -> nonempty ip = true)
  /\ (site_of x = ListNamed -> nonempty ip = false /\ nonempty name = true)
  /\ (site_of x = ListAll -> nonempty ip = false /\ nonempty name = false).
Proof.
  destruct available; cast_paths; intros H; simpl in H;
    repeat (destruct H as [H|H]; [subst x; simpl|]); try contradiction;
    (split; [|split; [|split]]); intros H'; try discriminate H';
    simpl; intuition (discriminate || congruence).
Qed.

Lemma cast_network_only_when_needed_witness :
  nonempty "" = false /\ nonempty "" = false.
Proof.
  assert (H : In (Done ListAll)
                 (fst (fst (get_google_home_cast (fun _ => false) true "" ""
                              0%nat [] [2%nat] None)))).
  { simpl. tauto. }
  exact (proj2 (proj2 (proj2
           (cast_network_only_when_needed (fun _ => false) true "" "" 0%nat
              [] [2%nat] None (Done ListAll) H))) eq_refl).
Defined.

(** X26: after a listing that did not raise, [get_google_home_cast]
    stops the discovery exactly when a device was listed: when no device is
    found the discovery browser is never stopped. *)
Theorem discovery_stopped_iff_found
        (raises : site -> bool) (available : bool) (ip name : string)
        (dev : device) (named all : list device) (cache : option device) :
  (In (Done ListNamed)
      (fst (fst (get_google_home_cast raises available ip name dev named all
                   cache))) ->
   ((In (Done StopDiscovery)
        (fst (fst (get_google_home_cast raises available ip name dev named
                     all cache)))
     \/ In (Failed StopDiscovery)
           (fst (fst (get_google_home_cast raises available ip name dev named
                        all cache))))
    <-> named <> []))
  /\ (In (Done ListAll)
         (fst (fst (get_google_home_cast raises available ip name dev named
                      all cache))) ->
      ((In (Done StopDiscovery)
           (fst (fst (get_google_home_cast raises available ip name dev named
                        all cache)))
        \/ In (Failed StopDiscovery)
              (fst (fst (get_google_home_cast raises available ip name dev
                           named all cache))))
       <-> all <> [])).
Proof.
  split; cast_paths; intros H; simpl in H; simpl;
    try (exfalso; intuition discriminate);
    split; intros H'; try discriminate;
    try (exfalso; intuition (discriminate || congruence)); tauto.
Qed.

Lemma discovery_stopped_iff_found_witness :
  (In (Done StopDiscovery)
      (fst (fst (get_google_home_cast (fun _ => false) true "" "" 0%nat
                   [] [] None)))
   \/ In (Failed StopDiscovery)
         (fst (fst (get_google_home_cast (fun _ => false) true "" "" 0%nat
                      [] [] None))))
  <-> @nil device <> [].
Proof.
  apply (proj2 (discovery_stopped_iff_found (fun _ => false) true "" "" 0%nat
                  [] [] None)).
  simpl. tauto.
Defined.

(** ** The two ways of speaking *)






(** X28: [speak] of [main2.py] returns normally exactly when neither the
    synthesis nor the mixer raised; a failing removal of the temporary
    file never makes it fail.  It attempts that removal exactly when the
    audio was written completely, as its last step. *)
Theorem speak2_result_and_cleanup (raises : site -> bool) (text : string) :
  (snd (speak2 raises text) = Ok tt
   <-> raises (Convert text) = false /\ raises CreateTemp = false
       /\ raises WriteChunks = false /\ raises MixerInit = false
       /\ raises MixerLoad = false /\ raises MixerPlay = false)
  /\ (existsb is_unlink (fst (speak2 raises text)) = true
      <-> In (Done WriteChunks) (fst (speak2 raises text)))
  /\ (In (Done WriteChunks) (fst (speak2 raises text)) ->
      is_unlink (last (fst (speak2 raises text)) (Done CreateTemp)) = true).
Proof.
  unfold speak2, synthesize, play_locally, bind, try_finally, swallow, call.
  destruct (raises (Convert text)), (raises CreateTemp), (raises WriteChunks),
    (raises MixerInit), (raises MixerLoad), (raises MixerPlay),
    (raises UnlinkAfterLocal); cbn [fst snd app];
    (split; [split; [intros H; try discriminate H; repeat split
                    | intros H; try reflexivity; exfalso;
                      intuition discriminate]|]);
    (split; [split; [intros H; simpl in H; try discriminate H; simpl; tauto
                    | intros H; simpl in H; try reflexivity;
                      exfalso; intuition discriminate]|]);
    intros H; simpl in H; try reflexivity; exfalso; intuition discriminate.
Qed.

Lemma speak2_result_and_cleanup_witness :
  is_unlink (last (fst (speak2 (fun s => match s with
                                         | MixerInit => true
                                         | _ => false
                                         end) "Nice! Much better!"))
                  (Done CreateTemp))
  = true.
Proof.
  apply (proj2 (proj2 (speak2_result_and_cleanup
                         (fun s => match s with
                                   | MixerInit => true
                                   | _ => false
                                   end) "Nice! Much better!"))).
  simpl. tauto.
Defined.
